(** * tensorQTL command-line driver ([tensorqtl/tensorqtl.py])

    A shallow embedding of [main]: the argparse surface, the input checks,
    the loading of the inputs, the selection of thresholds and the dispatch
    to the cis and trans mappers.

    The driver is effectful: it reads files, calls the mappers of the
    sibling modules ([cis], [trans], [susie], [post], [genotypeio]) and
    writes result files, and it stops at the first exception.  It is
    modelled in a writer/error monad [M]: a run yields the list of the
    events it performed, in order, and either a value or the exception
    raised.  What the file system holds is a [World]; the numeric code of
    the sibling modules is an [Engine].

    Not modelled: the logger (every [logger.write]), the CUDA device
    detection, and the [float_format] of the text writers. *)

From Stdlib Require Import ZArith Floats.
From stdpp Require Import base option list strings gmap.

Set Warnings "-inexact-float".
Open Scope Z_scope.
Open Scope string_scope.
Open Scope list_scope.

(** ** Command line *)

(** [--mode], restricted by argparse to its [choices]. *)
Inductive mode := Cis | CisNominal | CisIndependent | CisSusie | Trans.

Global Instance mode_eq_dec : EqDecision mode.
Proof. solve_decision. Defined.

Definition mode_name (m : mode) : string :=
  match m with
  | Cis => "cis"
  | CisNominal => "cis_nominal"
  | CisIndependent => "cis_independent"
  | CisSusie => "cis_susie"
  | Trans => "trans"
  end.

(** [s.startswith(p)] and [s.endswith(p)]. *)
Definition startswith (s p : string) : bool := String.prefix p s.

Definition endswith (s p : string) : bool :=
  String.eqb (String.substring (String.length s - String.length p) (String.length p) s) p
  && (String.length p <=? String.length s)%nat.

(** What the user typed: a flag that was not given is [None] (or [false]
    for a [store_true] flag).  Values are already converted by the flag's
    [type]. *)
Record CommandLine := {
  cl_genotype_path : string;
  cl_phenotype_bed : string;
  cl_prefix : string;
  cl_mode : option mode;
  cl_covariates : option string;
  cl_paired_covariate : option string;
  cl_permutations : option Z;
  cl_L : option Z;
  cl_interaction : option string;
  cl_cis_output : option string;
  cl_phenotype_groups : option string;
  cl_window : option Z;
  cl_pval_threshold : option float;
  cl_maf_threshold : option float;
  cl_maf_threshold_interaction : option float;
  cl_dosages : bool;
  cl_return_dense : bool;
  cl_return_r2 : bool;
  cl_best_only : bool;
  cl_output_text : bool;
  cl_batch_size : option Z;
  cl_invnorm : bool;
  cl_load_split : bool;
  cl_disable_beta_approx : bool;
  cl_warn_monomorphic : bool;
  cl_fdr : option float;
  cl_qvalue_lambda : option float;
  cl_seed : option Z;
  cl_output_dir : option string
}.

(** The [args] namespace.  A field is an [option] exactly when the code
    tests it against [None]. *)
Record Namespace := {
  arg_genotype_path : string;
  arg_phenotype_bed : string;
  arg_prefix : string;
  arg_mode : mode;
  arg_covariates : option string;
  arg_paired_covariate : option string;
  arg_permutations : Z;
  arg_L : Z;
  arg_interaction : option string;
  arg_cis_output : option string;
  arg_phenotype_groups : option string;
  arg_window : Z;
  arg_pval_threshold : option float;
  arg_maf_threshold : option float;
  arg_maf_threshold_interaction : float;
  arg_dosages : bool;
  arg_return_dense : bool;
  arg_return_r2 : bool;
  arg_best_only : bool;
  arg_output_text : bool;
  arg_batch_size : Z;
  arg_invnorm : bool;
  arg_load_split : bool;
  arg_disable_beta_approx : bool;
  arg_warn_monomorphic : bool;
  arg_fdr : float;
  arg_qvalue_lambda : option float;
  arg_seed : option Z;
  arg_output_dir : string
}.

(** Defaults of the parser (lines 22-47). *)
Definition default_window : Z := 1000000.
Definition default_maf_threshold : float := 0%float.
Definition default_permutations : Z := 10000.

(** [parser.parse_args()]: each flag takes its value from the command line
    or else its declared default.  [--pval_threshold], [--qvalue_lambda],
    [--seed] and the path flags default to [None]; [--maf_threshold]
    defaults to [0], so [args.maf_threshold] is never [None]. *)
Definition parse_args (c : CommandLine) : Namespace := {|
  arg_genotype_path := cl_genotype_path c;
  arg_phenotype_bed := cl_phenotype_bed c;
  arg_prefix := cl_prefix c;
  arg_mode := default Cis (cl_mode c);
  arg_covariates := cl_covariates c;
  arg_paired_covariate := cl_paired_covariate c;
  arg_permutations := default default_permutations (cl_permutations c);
  arg_L := default 10 (cl_L c);
  arg_interaction := cl_interaction c;
  arg_cis_output := cl_cis_output c;
  arg_phenotype_groups := cl_phenotype_groups c;
  arg_window := default default_window (cl_window c);
  arg_pval_threshold := cl_pval_threshold c;
  arg_maf_threshold := Some (default default_maf_threshold (cl_maf_threshold c));
  arg_maf_threshold_interaction := default 0.05%float (cl_maf_threshold_interaction c);
  arg_dosages := cl_dosages c;
  arg_return_dense := cl_return_dense c;
  arg_return_r2 := cl_return_r2 c;
  arg_best_only := cl_best_only c;
  arg_output_text := cl_output_text c;
  arg_batch_size := default 20000 (cl_batch_size c);
  arg_invnorm := cl_invnorm c;
  arg_load_split := cl_load_split c;
  arg_disable_beta_approx := cl_disable_beta_approx c;
  arg_warn_monomorphic := cl_warn_monomorphic c;
  arg_fdr := default 0.05%float (cl_fdr c);
  arg_qvalue_lambda := cl_qvalue_lambda c;
  arg_seed := cl_seed c;
  arg_output_dir := default "." (cl_output_dir c)
|}.

(** Lines 107-113: the MAF threshold handed to every mapper. *)
Definition select_maf_threshold (a : Namespace) : float :=
  match arg_maf_threshold a with
  | None => if decide (arg_mode a = Trans) then 0.05%float else 0%float
  | Some t => t
  end.

(** ** Data *)

(** A pandas frame: row labels with their rows, and column labels. *)
Record frame := {
  df_rows : list (string * list float);
  df_columns : list string
}.

Definition df_index (d : frame) : list string := (df_rows d).*1.

(** [d.shape[1]]. *)
Definition shape1 (d : frame) : nat := length (df_columns d).

(** [d.loc[labels]]: the rows of [d] in the order of [labels]. *)
Definition loc (d : frame) (labels : list string) : frame := {|
  df_rows := omap (λ l, (λ r, (l, r)) <$> (list_to_map (df_rows d) : gmap string (list float)) !! l) labels;
  df_columns := df_columns d
|}.

(** A position table: (chromosome, coordinate) by identifier, with the
    names of its columns. *)
Record pos_frame := {
  pos_columns : list string;
  pos_rows : gmap string (string * Z)
}.

(** One row of the trans output. *)
Record pair := {
  variant_id : string;
  phenotype_id : string;
  pval : float
}.

(** What a permutation procedure yields: the permutation assignments it
    drew and the p-values calibrated on them. *)
Record permutation_result := {
  assignments : list (list nat);
  calibrated : list float
}.

(** ** Calls to the sibling modules, with the arguments the driver passes *)

Record cis_call := {
  cc_genotype_df : frame;
  cc_variant_df : option (gmap string (string * Z));
  cc_phenotype_df : frame;
  cc_phenotype_pos_df : pos_frame;
  cc_covariates_df : option frame;
  cc_group_s : option (list (string * string));
  cc_paired_covariate_df : option frame;
  cc_nperm : Z;
  cc_window : Z;
  cc_beta_approx : bool;
  cc_maf_threshold : float;
  cc_warn_monomorphic : bool;
  cc_seed : option Z;
  cc_inverse_normal_transform : bool
}.

Record nominal_call := {
  nc_genotype_df : frame;
  nc_variant_df : option (gmap string (string * Z));
  nc_phenotype_df : frame;
  nc_phenotype_pos_df : pos_frame;
  nc_prefix : string;
  nc_chrom : option string;
  nc_covariates_df : option frame;
  nc_interaction_df : option frame;
  nc_maf_threshold_interaction : float;
  nc_window : Z;
  nc_maf_threshold : float;
  nc_output_dir : string;
  nc_write_stats : bool;
  nc_inverse_normal_transform : bool
}.

Record independent_call := {
  ic_genotype_df : frame;
  ic_variant_df : option (gmap string (string * Z));
  ic_cis_output : string;
  ic_phenotype_df : frame;
  ic_phenotype_pos_df : pos_frame;
  ic_covariates_df : option frame;
  ic_group_s : option (list (string * string));
  ic_fdr : float;
  ic_nperm : Z;
  ic_window : Z;
  ic_maf_threshold : float;
  ic_seed : option Z;
  ic_inverse_normal_transform : bool
}.

Record susie_call := {
  sc_genotype_df : frame;
  sc_variant_df : option (gmap string (string * Z));
  sc_phenotype_df : frame;
  sc_phenotype_pos_df : pos_frame;
  sc_cis_output : string;
  sc_filter_qval : option float;
  sc_covariates_df : option frame;
  sc_L : Z;
  sc_paired_covariate_df : option frame;
  sc_maf_threshold : float;
  sc_max_iter : Z;
  sc_window : Z;
  sc_inverse_normal_transform : bool
}.

Record trans_call := {
  tc_genotype_df : frame;
  tc_phenotype_df : frame;
  tc_covariates_df : option frame;
  tc_interaction_s : option frame;
  tc_return_sparse : bool;
  tc_pval_threshold : option float;
  tc_maf_threshold : float;
  tc_batch_size : Z;
  tc_return_r2 : bool;
  tc_inverse_normal_transform : bool
}.

Record permutations_call := {
  pc_genotype_df : frame;
  pc_covariates_df : option frame;
  pc_nperms : Z;
  pc_maf_threshold : float;
  pc_batch_size : Z;
  pc_seed : option Z;
  pc_inverse_normal_transform : bool
}.

Inductive call :=
| MapCis (c : cis_call)
| CalculateQvalues (fdr : float) (qvalue_lambda : option float)
| MapNominal (c : nominal_call)
| GetSignificantPairs (cis_output : string) (fdr : float)
| MapIndependent (c : independent_call)
| SusieMap (c : susie_call)
| MapTrans (c : trans_call)
| FilterCis (window : Z)
| MapPermutations (c : permutations_call).

(** What a writer is given. *)
Inductive artifact :=
| CisTable (r : permutation_result) (qvalues : bool)
| IndependentTable (r : permutation_result)
| PairsTable (l : list pair)
| PermutationNull (r : permutation_result)
| OtherTable (what : string).

(** ** Events, exceptions and the monad of the driver *)

Inductive event :=
| PathExists (path : string)
| ReadPhenotypeBed (path : string)
| ReadCsv (path : string)
| ReadParquet (path : string)
| OpenRead (path : string)
| LoadGenotypes (path : string) (dosages : bool)
| PlinkReader (path : string)
| Call (c : call)
| ToCsv (path : string) (a : artifact)
| ToParquet (path : string) (a : artifact)
| PickleDump (path : string) (a : artifact).

Inductive exn :=
| ValueError (msg : string)
| NotImplementedError (msg : string)
| AssertionError (msg : string)
| AttributeError
| KeyError (key : string)
| IndexError
| NameError (name : string).

Inductive outcome (A : Type) :=
| Ret (a : A)
| Raise (e : exn).
Arguments Ret {A} a.
Arguments Raise {A} e.

Definition M (A : Type) : Type := list event * outcome A.

Definition trace {A} (m : M A) : list event := m.1.
Definition result {A} (m : M A) : outcome A := m.2.

Global Instance M_ret : MRet M := λ A a, ([], Ret a).

Global Instance M_bind : MBind M := λ A B f m,
  match m.2 with
  | Ret a => (m.1 ++ (f a).1, (f a).2)
  | Raise e => (m.1, Raise e)
  end.

Definition raise {A} (e : exn) : M A := ([], Raise e).
Definition emit (e : event) : M unit := ([e], Ret ()).

(** [assert c, msg]. *)
Definition assert_ (c : bool) (msg : string) : M unit :=
  if c then mret () else raise (AssertionError msg).

(** [if c: raise e]. *)
Definition raise_if (c : bool) (e : exn) : M unit :=
  if c then raise e else mret ().

(** [os.path.join(d, f)] for a relative file name [f]. *)
Definition os_path_join (d f : string) : string :=
  if (String.length d =? 0)%nat || endswith d "/" then d +:+ f else d +:+ "/" +:+ f.

(** [for x in l: f x]. *)
Fixpoint for_each {A} (l : list A) (f : A → M unit) : M unit :=
  match l with
  | [] => mret ()
  | x :: l' => f x ;; for_each l' f
  end.

(** [o is not None] and [o is None]. *)
Definition is_not_none {A} (o : option A) : bool :=
  match o with Some _ => true | None => false end.
Definition is_none {A} (o : option A) : bool := negb (is_not_none o).

(** ** The world outside the driver *)

(** What the files and the environment hold.  Each field is what the
    named reader returns on the path the driver gives it. *)
Record World := {
  (** [os.path.exists] *)
  os_path_exists : string → bool;
  (** [read_phenotype_bed(args.phenotype_bed)] *)
  w_phenotype_bed : frame * pos_frame;
  (** [pd.read_csv(args.covariates, sep='\t', index_col=0).T] *)
  w_covariates : frame;
  (** [pd.read_csv(args.paired_covariate, sep='\t', index_col=0)] *)
  w_paired_covariate : frame;
  (** number of tab-separated fields of the second line of the
      interaction file *)
  w_interaction_line2_fields : nat;
  (** the interaction file read with [header=None] and with a header *)
  w_interaction_headerless : frame;
  w_interaction_header : frame;
  (** the two-column phenotype-group file, in file order; phenotype
      identifiers and group names are taken as strings *)
  w_phenotype_groups : list (string * string);
  (** [genotypeio.load_genotypes(...)]: genotypes and the optional
      variant position table *)
  w_genotypes : frame * option (gmap string (string * Z));
  (** [genotypeio.PlinkReader]: chromosomes, genotypes of a region, and
      the [bim] table by variant *)
  w_plink_chrs : list string;
  w_plink_region : string → frame;
  w_plink_bim : gmap string (string * Z);
  (** [has_rpy2] of the [post] module *)
  w_has_rpy2 : bool;
  (** the table of [args.cis_output]: whether it has a [qval] column, and
      the phenotypes of its rows whose [qval] passes the FDR given (all
      rows when no FDR is given) *)
  w_cis_output_has_qval : bool;
  w_cis_output_phenotypes : option float → list string;
  (** state of the random number generators when no seed is set *)
  w_entropy : Z
}.

(** The numeric code of the sibling modules, which is not part of the
    driver: the cast to [np.float32], the statistic engine behind the
    all-pairs scan, and the permutation procedures run from a given
    state of the random number generator. *)
Class Engine := {
  float32 : float → float;
  association_pairs :
    frame → frame → option frame → option frame → float → bool → list pair;
  cis_permutations : cis_call → Z → permutation_result;
  independent_permutations : independent_call → Z → permutation_result;
  trans_permutations : permutations_call → Z → permutation_result
}.

Section Driver.
Context `{Engine}.

(** [d.astype(np.float32)]. *)
Definition astype_float32 (d : frame) : frame := {|
  df_rows := (λ r : string * list float, (r.1, float32 <$> r.2)) <$> df_rows d;
  df_columns := df_columns d
|}.

(** Modelled from the spec: [trans.map_trans] is not under src/.  Its
    output is dense (all pairs) or sparse (pairs below a p-value threshold
    only); the pairs and their p-values come from the statistic engine. *)
Definition map_trans (c : trans_call) : list pair :=
  let dense :=
    association_pairs (tc_genotype_df c) (tc_phenotype_df c) (tc_covariates_df c)
      (tc_interaction_s c) (tc_maf_threshold c) (tc_inverse_normal_transform c) in
  match tc_return_sparse c, tc_pval_threshold c with
  | true, Some t => List.filter (λ p, PrimFloat.ltb (pval p) t) dense
  | _, _ => dense
  end.

(** A pair is cis-proximal when variant and phenotype are on the same
    chromosome, at most [window] bases apart. *)
Definition cis_proximal (phenotype_pos variant_df : gmap string (string * Z))
    (window : Z) (p : pair) : bool :=
  match variant_df !! variant_id p, phenotype_pos !! phenotype_id p with
  | Some (vchr, vpos), Some (pchr, ppos) =>
      String.eqb vchr pchr && (Z.abs (vpos - ppos) <=? window)%Z
  | _, _ => false
  end.

(** Modelled from the spec: [trans.filter_cis] is not under src/.  It
    removes all pairs with |position difference| <= window and chromosome
    match, and no others. *)
Definition filter_cis (pairs_df : list pair)
    (phenotype_pos variant_df : gmap string (string * Z)) (window : Z) : list pair :=
  List.filter (λ p, negb (cis_proximal phenotype_pos variant_df window p)) pairs_df.

(** Modelled from the spec: the permutation procedures ([cis.map_cis],
    [cis.map_independent], [trans.map_permutations]) are not under src/.
    They are deterministic given a seed, if supplied: the generator starts
    from the seed, and from the ambient state otherwise. *)
Definition rng_state (seed : option Z) (entropy : Z) : Z := default entropy seed.

Definition map_cis (c : cis_call) (entropy : Z) : permutation_result :=
  cis_permutations c (rng_state (cc_seed c) entropy).

Definition map_independent (c : independent_call) (entropy : Z) : permutation_result :=
  independent_permutations c (rng_state (ic_seed c) entropy).

Definition map_permutations (c : permutations_call) (entropy : Z) : permutation_result :=
  trans_permutations c (rng_state (pc_seed c) entropy).

(** ** [main], stage by stage *)

(** Lines 50-56: check inputs. *)
Definition check_inputs (a : Namespace) (w : World) : M unit :=
  missing ← (if decide (arg_mode a = CisIndependent) then
               match arg_cis_output a with
               | None => mret true
               | Some p => emit (PathExists p) ;; mret (negb (os_path_exists w p))
               end
             else mret false);
  raise_if missing (ValueError "Output from 'cis' mode must be provided.") ;;
  raise_if (is_not_none (arg_interaction a)
            && negb (bool_decide (arg_mode a ∈ [CisNominal; Trans])))
    (ValueError "Interactions are only supported in 'cis_nominal' or 'trans' mode.") ;;
  raise_if (is_not_none (arg_interaction a) && arg_invnorm a)
    (NotImplementedError "--invnorm is not supported when using --interaction").

(** Lines 69-74: phenotypes and their positions. *)
Definition load_phenotypes (a : Namespace) (w : World) : M (frame * pos_frame) :=
  emit (ReadPhenotypeBed (arg_phenotype_bed a)) ;;
  let '(phenotype_df, phenotype_pos_df) := w_phenotype_bed w in
  match pos_columns phenotype_pos_df !! 1%nat with
  | None => raise IndexError
  | Some c =>
      assert_ (String.eqb c "pos")
        "The BED file must define the TSS/cis-window center, with start+1 == end."
  end ;;
  raise_if (negb (length (pos_columns phenotype_pos_df) =? 2)%nat)
    (ValueError "Length mismatch") ;;
  mret (phenotype_df,
        {| pos_columns := ["chr"; "pos"]; pos_rows := pos_rows phenotype_pos_df |}).

(** Lines 76-81: covariates, samples in rows after the transposition. *)
Definition load_covariates (a : Namespace) (w : World) (phenotype_df : frame)
    : M (option frame) :=
  match arg_covariates a with
  | Some p =>
      emit (ReadCsv p) ;;
      let covariates_df := w_covariates w in
      assert_ (bool_decide (df_columns phenotype_df = df_index covariates_df)) EmptyString ;;
      mret (Some covariates_df)
  | None => mret None
  end.

(** Lines 83-89: the paired covariate. *)
Definition load_paired_covariate (a : Namespace) (w : World) (phenotype_df : frame)
    (covariates_df : option frame) : M (option frame) :=
  match arg_paired_covariate a with
  | Some p =>
      assert_ (is_not_none covariates_df)
        "Covariates matrix must be provided when using paired covariate" ;;
      emit (ReadCsv p) ;;
      let paired_covariate_df := w_paired_covariate w in
      assert_ (forallb (λ i, bool_decide (i ∈ df_index phenotype_df))
                 (df_index paired_covariate_df))
        "Paired covariate phenotypes must be present in phenotype matrix." ;;
      assert_ (bool_decide (df_columns paired_covariate_df = df_columns phenotype_df))
        "Paired covariate samples must match samples in phenotype matrix." ;;
      mret (Some paired_covariate_df)
  | None => mret None
  end.

(** The interaction file as pandas reads it: headerless when its second
    line has two fields (lines 94-100). *)
Definition read_interaction (w : World) : frame :=
  if (w_interaction_line2_fields w =? 2)%nat
  then w_interaction_headerless w
  else w_interaction_header w.

(** Lines 91-105: interaction term(s). *)
Definition load_interaction (a : Namespace) (w : World) (covariates_df : option frame)
    : M (option frame) :=
  match arg_interaction a with
  | Some p =>
      emit (OpenRead p) ;;
      emit (ReadCsv p) ;;
      let interaction_df := read_interaction w in
      match covariates_df with
      | None => raise AttributeError
      | Some c =>
          assert_ (forallb (λ s, bool_decide (s ∈ df_index interaction_df)) (df_index c))
            EmptyString ;;
          mret (Some (astype_float32 (loc interaction_df (df_index c))))
      end
  | None => mret None
  end.

(** The inputs once loaded. *)
Record inputs := {
  phenotype_df : frame;
  phenotype_pos_df : pos_frame;
  pos_dict : gmap string (string * Z);
  covariates_df : option frame;
  paired_covariate_df : option frame;
  interaction_df : option frame
}.

(** Lines 68-105: load inputs. *)
Definition load_inputs (a : Namespace) (w : World) : M inputs :=
  ph ← load_phenotypes a w;
  cov ← load_covariates a w ph.1;
  paired ← load_paired_covariate a w ph.1 cov;
  inter ← load_interaction a w cov;
  mret {| phenotype_df := ph.1; phenotype_pos_df := ph.2; pos_dict := pos_rows ph.2;
          covariates_df := cov; paired_covariate_df := paired; interaction_df := inter |}.

(** [s.to_dict()] of a two-column table: a later row overrides an earlier
    one with the same key. *)
Definition to_dict (s : list (string * string)) : gmap string string :=
  list_to_map (reverse s).

(** [s.unique()]: the distinct values. *)
Definition unique (s : list (string * string)) : list string := remove_dups s.*2.

(** Lines 119-124: the walk along the phenotype index that counts the
    changes of group, starting from the empty group name. *)
Fixpoint parse_groups (group_dict : gmap string string) (index : list string)
    (previous_group : string) (parsed_groups : nat) : M nat :=
  match index with
  | [] => mret parsed_groups
  | i :: index' =>
      match group_dict !! i with
      | None => raise (KeyError i)
      | Some g =>
          if bool_decide (g ≠ previous_group)
          then parse_groups group_dict index' g (S parsed_groups)
          else parse_groups group_dict index' previous_group parsed_groups
      end
  end.

(** Lines 115-128: phenotype groups and the check of their sort order. *)
Definition load_phenotype_groups (a : Namespace) (w : World) (inp : inputs)
    : M (option (list (string * string))) :=
  match arg_phenotype_groups a with
  | Some p =>
      emit (ReadCsv p) ;;
      let group_s := w_phenotype_groups w in
      let group_dict := to_dict group_s in
      parsed_groups ← parse_groups group_dict (df_index (phenotype_df inp)) EmptyString 0;
      raise_if (negb (parsed_groups =? length (unique group_s))%nat)
        (ValueError "Groups defined in input do not match phenotype file (check sort order).") ;;
      mret (Some group_s)
  | None => mret None
  end.

(** Lines 130-135: load genotypes, unless they are loaded chromosome by
    chromosome later ([--load_split] in mode [cis_nominal]). *)
Definition load_genotypes (a : Namespace) (w : World)
    : M (option (frame * option (gmap string (string * Z)))) :=
  if negb (arg_load_split a) || bool_decide (arg_mode a ≠ CisNominal) then
    emit (LoadGenotypes (arg_genotype_path a) (arg_dosages a)) ;;
    let '(genotype_df, variant_df) := w_genotypes w in
    match variant_df with
    | None =>
        assert_ (negb (startswith (mode_name (arg_mode a)) "cis"))
          "Genotype data without variant positions is only supported for mode='trans'."
    | Some _ => mret ()
    end ;;
    mret (Some (w_genotypes w))
  else mret None.

(** The genotypes when they were loaded; the names are unbound otherwise. *)
Definition loaded_genotypes (loaded : option (frame * option (gmap string (string * Z))))
    : M (frame * option (gmap string (string * Z))) :=
  match loaded with
  | Some g => mret g
  | None => raise (NameError "genotype_df")
  end.

(** Lines 138-147: mode [cis]. *)
Definition run_cis (a : Namespace) (w : World) (inp : inputs) (maf_threshold : float)
    (group_s : option (list (string * string)))
    (loaded : option (frame * option (gmap string (string * Z)))) : M unit :=
  g ← loaded_genotypes loaded;
  let c := {|
    cc_genotype_df := g.1; cc_variant_df := g.2;
    cc_phenotype_df := phenotype_df inp; cc_phenotype_pos_df := phenotype_pos_df inp;
    cc_covariates_df := covariates_df inp; cc_group_s := group_s;
    cc_paired_covariate_df := paired_covariate_df inp;
    cc_nperm := arg_permutations a; cc_window := arg_window a;
    cc_beta_approx := negb (arg_disable_beta_approx a);
    cc_maf_threshold := maf_threshold;
    cc_warn_monomorphic := arg_warn_monomorphic a;
    cc_seed := arg_seed a;
    cc_inverse_normal_transform := arg_invnorm a |} in
  emit (Call (MapCis c)) ;;
  let res_df := map_cis c (w_entropy w) in
  (if w_has_rpy2 w
   then emit (Call (CalculateQvalues (arg_fdr a) (arg_qvalue_lambda a)))
   else mret ()) ;;
  emit (ToCsv (os_path_join (arg_output_dir a) (arg_prefix a +:+ ".cis_qtl.txt.gz"))
          (CisTable res_df (w_has_rpy2 w))).

(** The rows of a frame, and of a position table, whose phenotype lies on
    chromosome [chrom]. *)
Definition on_chromosome (pos : pos_frame) (chrom : string) (id : string) : bool :=
  match pos_rows pos !! id with
  | Some (c, _) => String.eqb c chrom
  | None => false
  end.

Definition frame_on (pos : pos_frame) (chrom : string) (d : frame) : frame := {|
  df_rows := List.filter (λ r, on_chromosome pos chrom r.1) (df_rows d);
  df_columns := df_columns d
|}.

Definition pos_on (chrom : string) (pos : pos_frame) : pos_frame := {|
  pos_columns := pos_columns pos;
  pos_rows := filter (λ kv, kv.2.1 = chrom) (pos_rows pos)
|}.

(** Lines 148-179: mode [cis_nominal]. *)
Definition run_cis_nominal (a : Namespace) (w : World) (inp : inputs)
    (maf_threshold : float) (group_s : option (list (string * string)))
    (loaded : option (frame * option (gmap string (string * Z)))) : M unit :=
  let nominal genotype_df variant_df phenotype_df phenotype_pos_df chrom := {|
    nc_genotype_df := genotype_df; nc_variant_df := variant_df;
    nc_phenotype_df := phenotype_df; nc_phenotype_pos_df := phenotype_pos_df;
    nc_prefix := arg_prefix a; nc_chrom := chrom;
    nc_covariates_df := covariates_df inp;
    nc_interaction_df := interaction_df inp;
    nc_maf_threshold_interaction := arg_maf_threshold_interaction a;
    nc_window := arg_window a; nc_maf_threshold := maf_threshold;
    nc_output_dir := arg_output_dir a;
    nc_write_stats := negb (arg_best_only a);
    nc_inverse_normal_transform := arg_invnorm a |} in
  if negb (arg_load_split a) then
    g ← loaded_genotypes loaded;
    emit (Call (MapNominal
      (nominal g.1 g.2 (phenotype_df inp) (phenotype_pos_df inp) None))) ;;
    match arg_cis_output a with
    | Some p =>
        emit (ReadCsv p) ;;
        emit (Call (GetSignificantPairs p (arg_fdr a))) ;;
        emit (ToParquet
                (os_path_join (arg_output_dir a) (arg_prefix a +:+ ".cis_qtl.signif_pairs.parquet"))
                (OtherTable "signif_pairs"))
    | None => mret ()
    end
  else
    emit (PlinkReader (arg_genotype_path a)) ;;
    for_each (w_plink_chrs w) (λ chrom,
      emit (Call (MapNominal
        (nominal (w_plink_region w chrom)
           (Some (filter (λ kv, kv.2.1 = chrom) (w_plink_bim w)))
           (frame_on (phenotype_pos_df inp) chrom (phenotype_df inp))
           (pos_on chrom (phenotype_pos_df inp)) (Some chrom))))) ;;
    if is_not_none (interaction_df inp) then
      emit (ToCsv
              (os_path_join (arg_output_dir a) (arg_prefix a +:+ ".cis_qtl_top_assoc.txt.gz"))
              (OtherTable "top_assoc"))
    else mret ().

(** Lines 181-189: mode [cis_independent]. *)
Definition run_cis_independent (a : Namespace) (w : World) (inp : inputs)
    (maf_threshold : float) (group_s : option (list (string * string)))
    (loaded : option (frame * option (gmap string (string * Z)))) : M unit :=
  match arg_cis_output a with
  | None => raise (ValueError "Invalid file path or buffer object type")
  | Some p =>
      emit (ReadCsv p) ;;
      g ← loaded_genotypes loaded;
      let c := {|
        ic_genotype_df := g.1; ic_variant_df := g.2; ic_cis_output := p;
        ic_phenotype_df := phenotype_df inp; ic_phenotype_pos_df := phenotype_pos_df inp;
        ic_covariates_df := covariates_df inp; ic_group_s := group_s;
        ic_fdr := arg_fdr a; ic_nperm := arg_permutations a; ic_window := arg_window a;
        ic_maf_threshold := maf_threshold; ic_seed := arg_seed a;
        ic_inverse_normal_transform := arg_invnorm a |} in
      emit (Call (MapIndependent c)) ;;
      emit (ToCsv
              (os_path_join (arg_output_dir a) (arg_prefix a +:+ ".cis_independent_qtl.txt.gz"))
              (IndependentTable (map_independent c (w_entropy w))))
  end.

(** [p.loc[ix]] on a position table. *)
Definition pos_loc (pos : pos_frame) (ix : list string) : pos_frame := {|
  pos_columns := pos_columns pos;
  pos_rows := filter (λ kv, kv.1 ∈ ix) (pos_rows pos)
|}.

(** Lines 191-204: mode [cis_susie]. *)
Definition run_cis_susie (a : Namespace) (w : World) (inp : inputs)
    (maf_threshold : float)
    (loaded : option (frame * option (gmap string (string * Z)))) : M unit :=
  match arg_cis_output a with
  | None => raise AttributeError
  | Some p =>
      (if endswith p ".parquet" then emit (ReadParquet p) else emit (ReadCsv p)) ;;
      let qval_filter := if w_cis_output_has_qval w then Some (arg_fdr a) else None in
      let signif := w_cis_output_phenotypes w qval_filter in
      let ix := List.filter (λ i, bool_decide (i ∈ signif)) (df_index (phenotype_df inp)) in
      g ← loaded_genotypes loaded;
      emit (Call (SusieMap {|
        sc_genotype_df := g.1; sc_variant_df := g.2;
        sc_phenotype_df := loc (phenotype_df inp) ix;
        sc_phenotype_pos_df := pos_loc (phenotype_pos_df inp) ix;
        sc_cis_output := p; sc_filter_qval := qval_filter;
        sc_covariates_df := covariates_df inp; sc_L := arg_L a;
        sc_paired_covariate_df := paired_covariate_df inp;
        sc_maf_threshold := maf_threshold; sc_max_iter := 500;
        sc_window := arg_window a;
        sc_inverse_normal_transform := arg_invnorm a |})) ;;
      emit (ToParquet
              (os_path_join (arg_output_dir a) (arg_prefix a +:+ ".SuSiE_summary.parquet"))
              (OtherTable "SuSiE_summary")) ;;
      emit (PickleDump
              (os_path_join (arg_output_dir a) (arg_prefix a +:+ ".SuSiE.pickle"))
              (OtherTable "SuSiE"))
  end.

(** The window of the cis-exclusion of the trans output (line 226) and
    the default p-value threshold of the sparse output (line 210). *)
Definition trans_cis_window : Z := 5000000.
Definition default_pval_threshold : float := 1e-5%float.

(** Lines 207-210. *)
Definition trans_return_sparse (a : Namespace) : bool := negb (arg_return_dense a).

Definition trans_pval_threshold (a : Namespace) : option float :=
  if is_none (arg_pval_threshold a) && trans_return_sparse a
  then Some default_pval_threshold
  else arg_pval_threshold a.

(** File names of the trans outputs. *)
Definition permutations_txt (a : Namespace) : string :=
  os_path_join (arg_output_dir a) (arg_prefix a +:+ ".permutations.txt.gz").
Definition permutations_pickle (a : Namespace) : string :=
  os_path_join (arg_output_dir a) (arg_prefix a +:+ ".permutations.pickle").
Definition pairs_parquet (a : Namespace) : string :=
  os_path_join (arg_output_dir a) (arg_prefix a +:+ ".trans_qtl_pairs.parquet").
Definition pairs_txt (a : Namespace) : string :=
  os_path_join (arg_output_dir a) (arg_prefix a +:+ ".trans_qtl_pairs.txt.gz").

(** Lines 213-217: only a single interaction; [squeeze('columns')] of a
    frame of one column keeps its rows. *)
Definition single_interaction (inp : inputs) : M (option frame) :=
  match interaction_df inp with
  | Some d =>
      if (1 <? shape1 d)%nat
      then raise (NotImplementedError
                    "trans-QTL mapping currently only supports a single interaction.")
      else mret (Some d)
  | None => mret None
  end.

(** Lines 219-222: the arguments of the scan. *)
Definition trans_scan (a : Namespace) (inp : inputs) (maf_threshold : float)
    (genotype_df : frame) (interaction_s : option frame) : trans_call := {|
  tc_genotype_df := genotype_df;
  tc_phenotype_df := phenotype_df inp;
  tc_covariates_df := covariates_df inp;
  tc_interaction_s := interaction_s;
  tc_return_sparse := trans_return_sparse a;
  tc_pval_threshold := trans_pval_threshold a;
  tc_maf_threshold := maf_threshold;
  tc_batch_size := arg_batch_size a;
  tc_return_r2 := arg_return_r2 a;
  tc_inverse_normal_transform := arg_invnorm a
|}.

(** Lines 224-226: cis-exclusion, when the variant positions are known. *)
Definition exclude_cis (inp : inputs) (variant_df : option (gmap string (string * Z)))
    (pairs_df : list pair) : M (list pair) :=
  match variant_df with
  | Some v =>
      emit (Call (FilterCis trans_cis_window)) ;;
      mret (filter_cis pairs_df (pos_dict inp) v trans_cis_window)
  | None => mret pairs_df
  end.

(** Lines 230-232: the arguments of the permutation procedure. *)
Definition trans_permutation_call (a : Namespace) (inp : inputs) (maf_threshold : float)
    (genotype_df : frame) : permutations_call := {|
  pc_genotype_df := genotype_df;
  pc_covariates_df := covariates_df inp;
  pc_nperms := arg_permutations a;
  pc_maf_threshold := maf_threshold;
  pc_batch_size := arg_batch_size a;
  pc_seed := arg_seed a;
  pc_inverse_normal_transform := arg_invnorm a
|}.

(** Lines 228-237: the permutation null and its two files. *)
Definition run_permutations (a : Namespace) (w : World) (inp : inputs)
    (maf_threshold : float) (genotype_df : frame) : M unit :=
  if (0 <? arg_permutations a)%Z then
    let c := trans_permutation_call a inp maf_threshold genotype_df in
    emit (Call (MapPermutations c)) ;;
    let permutations := map_permutations c (w_entropy w) in
    emit (ToCsv (permutations_txt a) (PermutationNull permutations)) ;;
    emit (PickleDump (permutations_pickle a) (PermutationNull permutations))
  else mret ().

(** Lines 239-244: writing the pairs. *)
Definition write_pairs (a : Namespace) (pairs_df : list pair) : M unit :=
  if negb (arg_output_text a)
  then emit (ToParquet (pairs_parquet a) (PairsTable pairs_df))
  else emit (ToCsv (pairs_txt a) (PairsTable pairs_df)).

(** Lines 206-244: mode [trans]. *)
Definition run_trans (a : Namespace) (w : World) (inp : inputs) (maf_threshold : float)
    (loaded : option (frame * option (gmap string (string * Z)))) : M unit :=
  interaction_s ← single_interaction inp;
  g ← loaded_genotypes loaded;
  let c := trans_scan a inp maf_threshold g.1 interaction_s in
  emit (Call (MapTrans c)) ;;
  pairs_df ← exclude_cis inp g.2 (map_trans c);
  run_permutations a w inp maf_threshold g.1 ;;
  write_pairs a pairs_df.

(** Lines 137-244: the dispatch on the mode. *)
Definition run_mode (a : Namespace) (w : World) (inp : inputs) (maf_threshold : float)
    (group_s : option (list (string * string)))
    (loaded : option (frame * option (gmap string (string * Z)))) : M unit :=
  if startswith (mode_name (arg_mode a)) "cis" then
    if decide (arg_mode a = Cis) then run_cis a w inp maf_threshold group_s loaded
    else if decide (arg_mode a = CisNominal)
      then run_cis_nominal a w inp maf_threshold group_s loaded
    else if decide (arg_mode a = CisIndependent)
      then run_cis_independent a w inp maf_threshold group_s loaded
    else if decide (arg_mode a = CisSusie) then run_cis_susie a w inp maf_threshold loaded
    else mret ()
  else if decide (arg_mode a = Trans) then run_trans a w inp maf_threshold loaded
  else mret ().

(** [main], after [args = parser.parse_args()]. *)
Definition main (a : Namespace) (w : World) : M unit :=
  check_inputs a w ;;
  inp ← load_inputs a w;
  let maf_threshold := select_maf_threshold a in
  group_s ← load_phenotype_groups a w inp;
  loaded ← load_genotypes a w;
  run_mode a w inp maf_threshold group_s loaded.

(** The program: parse the command line, then run [main]. *)
Definition tensorqtl (c : CommandLine) (w : World) : M unit := main (parse_args c) w.

(** ** Classes of events *)

Definition is_read (e : event) : bool :=
  match e with
  | ReadPhenotypeBed _ | ReadCsv _ | ReadParquet _ | OpenRead _
  | LoadGenotypes _ _ | PlinkReader _ => true
  | _ => false
  end.

Definition is_genotype_load (e : event) : bool :=
  match e with
  | LoadGenotypes _ _ | PlinkReader _ => true
  | _ => false
  end.

(** The calls that compute associations. *)
Definition is_mapping (e : event) : bool :=
  match e with
  | Call (MapCis _) | Call (MapNominal _) | Call (MapIndependent _)
  | Call (SusieMap _) | Call (MapTrans _) | Call (MapPermutations _) => true
  | _ => false
  end.

(** The call of [genotypeio.load_genotypes]. *)
Definition is_loader (e : event) : bool :=
  match e with LoadGenotypes _ _ => true | _ => false end.

Definition is_filter_cis (e : event) : bool :=
  match e with Call (FilterCis _) => true | _ => false end.

Definition is_scan (e : event) : bool :=
  match e with Call (MapTrans _) => true | _ => false end.

Definition is_map_permutations (e : event) : bool :=
  match e with Call (MapPermutations _) => true | _ => false end.

(** The seed a permutation procedure is called with. *)
Definition seed_of (e : event) : option (option Z) :=
  match e with
  | Call (MapCis c) => Some (cc_seed c)
  | Call (MapIndependent c) => Some (ic_seed c)
  | Call (MapPermutations c) => Some (pc_seed c)
  | _ => None
  end.

(** The pairs a writer is given, if it is given pairs. *)
Definition pairs_written (e : event) : option (list pair) :=
  match e with
  | ToCsv _ (PairsTable l) | ToParquet _ (PairsTable l) | PickleDump _ (PairsTable l) => Some l
  | _ => None
  end.

(** The world with another ambient state of the random generators. *)
Definition with_entropy (w : World) (entropy : Z) : World := {|
  os_path_exists := os_path_exists w;
  w_phenotype_bed := w_phenotype_bed w;
  w_covariates := w_covariates w;
  w_paired_covariate := w_paired_covariate w;
  w_interaction_line2_fields := w_interaction_line2_fields w;
  w_interaction_headerless := w_interaction_headerless w;
  w_interaction_header := w_interaction_header w;
  w_phenotype_groups := w_phenotype_groups w;
  w_genotypes := w_genotypes w;
  w_plink_chrs := w_plink_chrs w;
  w_plink_region := w_plink_region w;
  w_plink_bim := w_plink_bim w;
  w_has_rpy2 := w_has_rpy2 w;
  w_cis_output_has_qval := w_cis_output_has_qval w;
  w_cis_output_phenotypes := w_cis_output_phenotypes w;
  w_entropy := entropy
|}.

End Driver.

(** ** Reasoning about runs *)

(** Every event of the trace is of the class [Q]; no event is of the
    class [P]. *)
Definition only (Q : event → bool) (t : list event) : Prop :=
  Forall (λ e, Q e = true) t.

Definition never (P : event → bool) (t : list event) : Prop :=
  Forall (λ e, P e = false) t.

Definition is_computation (e : event) : bool := is_genotype_load e || is_mapping e.

(** The events of the stages that validate and read the inputs. *)
Definition is_input_event (e : event) : bool :=
  match e with
  | PathExists _ | ReadPhenotypeBed _ | ReadCsv _ | OpenRead _ => true
  | _ => false
  end.

Section Runs.
Context {A B : Type}.
Implicit Types (m : M A) (f : A → M B).

Lemma trace_bind_ret m f a :
  result m = Ret a → trace (m ≫= f) = trace m ++ trace (f a).
Proof. destruct m as [t r]; cbn; intros ->; reflexivity. Qed.

Lemma result_bind_ret m f a :
  result m = Ret a → result (m ≫= f) = result (f a).
Proof. destruct m as [t r]; cbn; intros ->; reflexivity. Qed.

Lemma trace_bind_raise m f e :
  result m = Raise e → trace (m ≫= f) = trace m.
Proof. destruct m as [t r]; cbn; intros ->; reflexivity. Qed.

Lemma result_bind_raise m f e :
  result m = Raise e → result (m ≫= f) = Raise e.
Proof. destruct m as [t r]; cbn; intros ->; reflexivity. Qed.

Lemma every_bind (Q : event → Prop) m f :
  Forall Q (trace m) → (∀ a, result m = Ret a → Forall Q (trace (f a))) →
  Forall Q (trace (m ≫= f)).
Proof.
  intros Hm Hf. destruct (result m) as [a|e] eqn:E.
  - rewrite (trace_bind_ret _ _ _ E). apply Forall_app_2; [exact Hm | exact (Hf a eq_refl)].
  - rewrite (trace_bind_raise _ _ _ E). exact Hm.
Qed.

Lemma only_bind Q m f :
  only Q (trace m) → (∀ a, result m = Ret a → only Q (trace (f a))) →
  only Q (trace (m ≫= f)).
Proof. apply every_bind. Qed.

(** An event of a sequence is an event of its first part, or the first
    part returned and it is an event of the second. *)
Lemma elem_of_trace_bind m f e :
  e ∈ trace (m ≫= f) →
  e ∈ trace m ∨ ∃ a, result m = Ret a ∧ e ∈ trace (f a).
Proof.
  destruct (result m) as [a|x] eqn:E.
  - rewrite (trace_bind_ret _ _ _ E), elem_of_app. intros [?|?]; eauto.
  - rewrite (trace_bind_raise _ _ _ E). auto.
Qed.

(** A sequence returns only if both parts do. *)
Lemma result_bind_inv m f b :
  result (m ≫= f) = Ret b → ∃ a, result m = Ret a ∧ result (f a) = Ret b.
Proof.
  destruct (result m) as [a|x] eqn:E.
  - rewrite (result_bind_ret _ _ _ E). eauto.
  - rewrite (result_bind_raise _ _ _ E). discriminate.
Qed.

End Runs.

Lemma bind_mret {A B} (a : A) (f : A → M B) : mret a ≫= f = f a.
Proof. unfold mbind, M_bind, mret, M_ret. cbn. destruct (f a); reflexivity. Qed.

Lemma every_emit (Q : event → Prop) e : Q e → Forall Q (trace (emit e)).
Proof. intros; repeat constructor; assumption. Qed.

Lemma every_assert (Q : event → Prop) c msg : Forall Q (trace (assert_ c msg)).
Proof. destruct c; constructor. Qed.

Lemma every_raise_if (Q : event → Prop) c e : Forall Q (trace (raise_if c e)).
Proof. destruct c; constructor. Qed.

Lemma every_for_each {A} (Q : event → Prop) (l : list A) (f : A → M unit) :
  (∀ x, Forall Q (trace (f x))) → Forall Q (trace (for_each l f)).
Proof.
  intros Hf. induction l as [|x l IH]; cbn [for_each].
  - constructor.
  - apply every_bind; auto.
Qed.

Lemma only_ret {A} Q (a : A) : only Q (trace (mret a)).
Proof. constructor. Qed.

Lemma only_raise {A} Q e : only Q (trace (raise e : M A)).
Proof. constructor. Qed.

Lemma only_emit Q e : Q e = true → only Q (trace (emit e)).
Proof. intros; repeat constructor; assumption. Qed.

Lemma only_assert Q c msg : only Q (trace (assert_ c msg)).
Proof. destruct c; constructor. Qed.

Lemma only_raise_if Q c e : only Q (trace (raise_if c e)).
Proof. destruct c; constructor. Qed.

Lemma only_never Q P t :
  (∀ e, Q e = true → P e = false) → only Q t → never P t.
Proof. intros HQP Ho. exact (Forall_impl _ _ _ Ho HQP). Qed.

Lemma never_app P t1 t2 : never P t1 → never P t2 → never P (t1 ++ t2).
Proof. apply Forall_app_2. Qed.

Lemma only_elem_of Q t e : only Q t → e ∈ t → Q e = true.
Proof. intros Ho He. exact (proj1 (Forall_forall _ _) Ho e He). Qed.

Lemma never_elem_of P t e : never P t → e ∈ t → P e = false.
Proof. intros Hn He. exact (proj1 (Forall_forall _ _) Hn e He). Qed.


Lemma raise_if_ret c e u : result (raise_if c e) = Ret u → c = false.
Proof. destruct c; [discriminate | reflexivity]. Qed.

(** Splits the trace of a monadic term into the traces of its parts. *)
Ltac only_step :=
  first
    [ apply only_bind; [| intros ? ?]
    | apply only_emit; reflexivity
    | apply only_ret | apply only_raise | apply only_assert | apply only_raise_if ].

Ltac only_tac := repeat first [ only_step | case_match ].

(** The same for a property of events; what is left is the property at
    each event emitted. *)
Ltac every_step :=
  first
    [ apply every_bind; [| intros ? ?]
    | apply every_for_each; intros ?
    | apply every_emit
    | apply every_assert | apply every_raise_if
    | apply Forall_nil_2 ].

(** Input events are neither reads of genotypes nor computations. *)
Lemma input_event_not_computation e : is_input_event e = true → is_computation e = false.
Proof. destruct e; cbn; congruence. Qed.

Section Properties.
Context `{Engine}.

(** *** What the stages emit *)

Lemma check_inputs_only a w :
  only (λ e, match e with PathExists _ => true | _ => false end) (trace (check_inputs a w)).
Proof. unfold check_inputs. only_tac. Qed.

Lemma load_inputs_only a w : only is_input_event (trace (load_inputs a w)).
Proof.
  unfold load_inputs, load_phenotypes, load_covariates, load_paired_covariate,
    load_interaction.
  only_tac.
Qed.

Lemma parse_groups_trace d index prev n : trace (parse_groups d index prev n) = [].
Proof.
  revert prev n. induction index as [|i index IH]; intros prev n; cbn [parse_groups].
  - reflexivity.
  - destruct (d !! i); [|reflexivity]. case_bool_decide; apply IH.
Qed.

Lemma load_phenotype_groups_only a w inp :
  only is_input_event (trace (load_phenotype_groups a w inp)).
Proof.
  unfold load_phenotype_groups. only_tac.
  unfold only. rewrite parse_groups_trace. constructor.
Qed.

Lemma load_genotypes_only a w : only is_loader (trace (load_genotypes a w)).
Proof. unfold load_genotypes. only_tac. Qed.

(** *** How a run of [main] goes: the stage that stops it, or the dispatch *)

Lemma main_stops_at_check a w e :
  result (check_inputs a w) = Raise e →
  result (main a w) = Raise e ∧ trace (main a w) = trace (check_inputs a w).
Proof.
  intros E. unfold main.
  rewrite (trace_bind_raise _ _ _ E), (result_bind_raise _ _ _ E). auto.
Qed.

Lemma main_stops_at_inputs a w u e :
  result (check_inputs a w) = Ret u →
  result (load_inputs a w) = Raise e →
  result (main a w) = Raise e
  ∧ trace (main a w) = trace (check_inputs a w) ++ trace (load_inputs a w).
Proof.
  intros E1 E2. unfold main.
  rewrite (trace_bind_ret _ _ _ E1), (result_bind_ret _ _ _ E1).
  rewrite (trace_bind_raise _ _ _ E2), (result_bind_raise _ _ _ E2). auto.
Qed.

Lemma main_stops_at_groups a w u inp e :
  result (check_inputs a w) = Ret u →
  result (load_inputs a w) = Ret inp →
  result (load_phenotype_groups a w inp) = Raise e →
  result (main a w) = Raise e
  ∧ trace (main a w) =
      trace (check_inputs a w) ++ trace (load_inputs a w)
      ++ trace (load_phenotype_groups a w inp).
Proof.
  intros E1 E2 E3. unfold main.
  rewrite (trace_bind_ret _ _ _ E1), (result_bind_ret _ _ _ E1).
  rewrite (trace_bind_ret _ _ _ E2), (result_bind_ret _ _ _ E2).
  rewrite (trace_bind_raise _ _ _ E3), (result_bind_raise _ _ _ E3). auto.
Qed.

Lemma main_stops_at_genotypes a w u inp group_s e :
  result (check_inputs a w) = Ret u →
  result (load_inputs a w) = Ret inp →
  result (load_phenotype_groups a w inp) = Ret group_s →
  result (load_genotypes a w) = Raise e →
  result (main a w) = Raise e
  ∧ trace (main a w) =
      trace (check_inputs a w) ++ trace (load_inputs a w)
      ++ trace (load_phenotype_groups a w inp) ++ trace (load_genotypes a w).
Proof.
  intros E1 E2 E3 E4. unfold main.
  rewrite (trace_bind_ret _ _ _ E1), (result_bind_ret _ _ _ E1).
  rewrite (trace_bind_ret _ _ _ E2), (result_bind_ret _ _ _ E2).
  rewrite (trace_bind_ret _ _ _ E3), (result_bind_ret _ _ _ E3).
  rewrite (trace_bind_raise _ _ _ E4), (result_bind_raise _ _ _ E4). auto.
Qed.

Lemma main_dispatches a w u inp group_s loaded :
  result (check_inputs a w) = Ret u →
  result (load_inputs a w) = Ret inp →
  result (load_phenotype_groups a w inp) = Ret group_s →
  result (load_genotypes a w) = Ret loaded →
  result (main a w) =
    result (run_mode a w inp (select_maf_threshold a) group_s loaded)
  ∧ trace (main a w) =
      trace (check_inputs a w) ++ trace (load_inputs a w)
      ++ trace (load_phenotype_groups a w inp) ++ trace (load_genotypes a w)
      ++ trace (run_mode a w inp (select_maf_threshold a) group_s loaded).
Proof.
  intros E1 E2 E3 E4. unfold main.
  rewrite (trace_bind_ret _ _ _ E1), (result_bind_ret _ _ _ E1).
  rewrite (trace_bind_ret _ _ _ E2), (result_bind_ret _ _ _ E2).
  rewrite (trace_bind_ret _ _ _ E3), (result_bind_ret _ _ _ E3).
  rewrite (trace_bind_ret _ _ _ E4), (result_bind_ret _ _ _ E4). auto.
Qed.

(** The events of the stages before the dispatch. *)
Definition is_prelude_event (e : event) : bool := is_input_event e || is_loader e.

Lemma check_inputs_input a w : only is_input_event (trace (check_inputs a w)).
Proof.
  eapply Forall_impl; [apply check_inputs_only|].
  intros []; cbn; congruence.
Qed.

Lemma input_only_prelude t : only is_input_event t → only is_prelude_event t.
Proof.
  intros Ho. eapply Forall_impl; [exact Ho|].
  intros e He. unfold is_prelude_event. rewrite He. reflexivity.
Qed.

Lemma loader_only_prelude t : only is_loader t → only is_prelude_event t.
Proof.
  intros Ho. eapply Forall_impl; [exact Ho|].
  intros e He. unfold is_prelude_event. rewrite He. apply orb_true_r.
Qed.

Lemma prelude_only a w inp :
  only is_prelude_event
    (trace (check_inputs a w) ++ trace (load_inputs a w)
     ++ trace (load_phenotype_groups a w inp) ++ trace (load_genotypes a w)).
Proof.
  repeat apply Forall_app_2;
    first [ apply input_only_prelude;
            first [ apply check_inputs_input | apply load_inputs_only
                  | apply load_phenotype_groups_only ]
          | apply loader_only_prelude, load_genotypes_only ].
Qed.

(** A run stops in a stage before the dispatch, with only events of
    those stages, or it reaches the dispatch. *)
Lemma main_cases a w :
  (∃ e, result (main a w) = Raise e ∧ only is_prelude_event (trace (main a w)))
  ∨ (∃ inp group_s loaded,
       result (check_inputs a w) = Ret ()
       ∧ result (load_inputs a w) = Ret inp
       ∧ result (load_phenotype_groups a w inp) = Ret group_s
       ∧ result (load_genotypes a w) = Ret loaded).
Proof.
  pose proof (check_inputs_input a w) as T1.
  pose proof (load_inputs_only a w) as T2.
  pose proof (load_genotypes_only a w) as T4.
  destruct (result (check_inputs a w)) as [[]|e] eqn:E1.
  2:{ left. exists e. destruct (main_stops_at_check a w e E1) as [-> ->].
      split; [reflexivity|]. apply input_only_prelude, T1. }
  destruct (result (load_inputs a w)) as [inp|e] eqn:E2.
  2:{ left. exists e. destruct (main_stops_at_inputs a w _ e E1 E2) as [-> ->].
      split; [reflexivity|]. apply input_only_prelude, Forall_app_2; assumption. }
  pose proof (load_phenotype_groups_only a w inp) as T3.
  destruct (result (load_phenotype_groups a w inp)) as [group_s|e] eqn:E3.
  2:{ left. exists e. destruct (main_stops_at_groups a w _ inp e E1 E2 E3) as [-> ->].
      split; [reflexivity|].
      apply input_only_prelude; repeat apply Forall_app_2; assumption. }
  destruct (result (load_genotypes a w)) as [loaded|e] eqn:E4.
  2:{ left. exists e.
      destruct (main_stops_at_genotypes a w _ inp group_s e E1 E2 E3 E4) as [-> ->].
      split; [reflexivity|].
      repeat apply Forall_app_2;
        first [ apply input_only_prelude; assumption | apply loader_only_prelude, T4 ]. }
  right. exists inp, group_s, loaded. auto.
Qed.

(** *** What the stages return *)

Lemma load_phenotypes_inv a w ph :
  result (load_phenotypes a w) = Ret ph →
  ph.1 = (w_phenotype_bed w).1 ∧ pos_rows ph.2 = pos_rows (w_phenotype_bed w).2.
Proof.
  unfold load_phenotypes. destruct (w_phenotype_bed w) as [d pos]. intros E.
  apply result_bind_inv in E as (? & _ & E).
  apply result_bind_inv in E as (? & _ & E).
  apply result_bind_inv in E as (? & _ & E).
  injection E as <-. auto.
Qed.

Lemma load_inputs_inv a w inp :
  result (load_inputs a w) = Ret inp →
  ∃ ph cov paired inter,
    result (load_phenotypes a w) = Ret ph
    ∧ result (load_covariates a w ph.1) = Ret cov
    ∧ result (load_paired_covariate a w ph.1 cov) = Ret paired
    ∧ result (load_interaction a w cov) = Ret inter
    ∧ inp = {| phenotype_df := ph.1; phenotype_pos_df := ph.2; pos_dict := pos_rows ph.2;
               covariates_df := cov; paired_covariate_df := paired;
               interaction_df := inter |}.
Proof.
  unfold load_inputs. intros E.
  apply result_bind_inv in E as (ph & E1 & E).
  apply result_bind_inv in E as (cov & E2 & E).
  apply result_bind_inv in E as (paired & E3 & E).
  apply result_bind_inv in E as (inter & E4 & E).
  injection E as <-. exists ph, cov, paired, inter. auto.
Qed.

Lemma load_inputs_phenotypes a w inp :
  result (load_inputs a w) = Ret inp →
  phenotype_df inp = (w_phenotype_bed w).1
  ∧ pos_dict inp = pos_rows (w_phenotype_bed w).2.
Proof.
  intros E. apply load_inputs_inv in E as (ph & cov & paired & inter & E1 & _ & _ & _ & ->).
  apply load_phenotypes_inv in E1 as [-> ->]. auto.
Qed.

(** The interaction matrix the driver keeps has the columns of the file. *)
Lemma load_inputs_interaction a w inp p :
  result (load_inputs a w) = Ret inp →
  arg_interaction a = Some p →
  ∃ d, interaction_df inp = Some d ∧ shape1 d = shape1 (read_interaction w).
Proof.
  intros E Hi. apply load_inputs_inv in E as (ph & cov & paired & inter & _ & _ & _ & E4 & ->).
  cbn [interaction_df]. unfold load_interaction in E4. rewrite Hi in E4.
  apply result_bind_inv in E4 as (? & _ & E4).
  apply result_bind_inv in E4 as (? & _ & E4).
  destruct cov as [c|]; [|discriminate].
  apply result_bind_inv in E4 as (? & _ & E4).
  injection E4 as <-. eexists; split; reflexivity.
Qed.

Lemma load_covariates_mismatch a w d p :
  arg_covariates a = Some p →
  df_columns d ≠ df_index (w_covariates w) →
  result (load_covariates a w d) = Raise (AssertionError EmptyString).
Proof.
  intros Hc Hne. unfold load_covariates. rewrite Hc.
  rewrite (result_bind_ret (emit _) _ () eq_refl).
  rewrite (bool_decide_eq_false_2 _ Hne). reflexivity.
Qed.

Lemma load_inputs_covariates_mismatch a w p :
  arg_covariates a = Some p →
  df_columns (w_phenotype_bed w).1 ≠ df_index (w_covariates w) →
  (∃ e, result (load_inputs a w) = Raise e)
  ∧ (∀ ph, result (load_phenotypes a w) = Ret ph →
       result (load_inputs a w) = Raise (AssertionError EmptyString)).
Proof.
  intros Hc Hne.
  assert (∀ ph, result (load_phenotypes a w) = Ret ph →
            result (load_inputs a w) = Raise (AssertionError EmptyString)) as Hph.
  { intros ph E. unfold load_inputs. rewrite (result_bind_ret _ _ _ E).
    apply result_bind_raise, (load_covariates_mismatch _ _ _ p Hc).
    destruct (load_phenotypes_inv _ _ _ E) as [-> _]. exact Hne. }
  split; [|exact Hph].
  destruct (result (load_phenotypes a w)) as [ph|e] eqn:E.
  - eauto.
  - exists e. unfold load_inputs. apply result_bind_raise, E.
Qed.

Lemma load_phenotype_groups_mismatch a w inp p n :
  arg_phenotype_groups a = Some p →
  result (parse_groups (to_dict (w_phenotype_groups w)) (df_index (phenotype_df inp))
            EmptyString 0) = Ret n →
  n ≠ length (unique (w_phenotype_groups w)) →
  result (load_phenotype_groups a w inp) =
    Raise (ValueError
             "Groups defined in input do not match phenotype file (check sort order).").
Proof.
  intros Hp Hn Hne. unfold load_phenotype_groups. rewrite Hp.
  rewrite (result_bind_ret (emit _) _ () eq_refl).
  rewrite (result_bind_ret _ _ _ Hn).
  apply Nat.eqb_neq in Hne. rewrite Hne. reflexivity.
Qed.

Lemma check_inputs_interaction_mode a w p :
  arg_interaction a = Some p →
  arg_mode a ∉ [CisNominal; Trans] →
  ∃ msg, result (check_inputs a w) = Raise (ValueError msg).
Proof.
  intros Hi Hm. unfold check_inputs. rewrite Hi. cbn [is_not_none].
  rewrite (bool_decide_eq_false_2 _ Hm).
  match goal with |- context [mbind _ ?m] =>
    match type of m with M bool => destruct (result m) as [[]|e] eqn:E end end.
  - rewrite (result_bind_ret _ _ _ E). eexists; reflexivity.
  - rewrite (result_bind_ret _ _ _ E). eexists; reflexivity.
  - exfalso. repeat case_match; discriminate.
Qed.

Lemma run_mode_trans a w inp maf group_s loaded :
  arg_mode a = Trans →
  run_mode a w inp maf group_s loaded = run_trans a w inp maf loaded.
Proof. intros Hm. unfold run_mode. rewrite Hm. reflexivity. Qed.

Lemma single_interaction_many inp d :
  interaction_df inp = Some d → (1 < shape1 d)%nat →
  single_interaction inp =
    raise (NotImplementedError
             "trans-QTL mapping currently only supports a single interaction.").
Proof.
  intros Hd Hs. unfold single_interaction. rewrite Hd.
  apply Nat.ltb_lt in Hs. rewrite Hs. reflexivity.
Qed.

(** What no event before the dispatch is. *)
Lemma prelude_event_not e :
  is_prelude_event e = true →
  is_mapping e = false ∧ is_scan e = false ∧ is_filter_cis e = false
  ∧ is_map_permutations e = false ∧ seed_of e = None ∧ pairs_written e = None.
Proof. destruct e; cbn; intros He; try discriminate He; auto 10. Qed.

Lemma input_only_never_computation t : only is_input_event t → never is_computation t.
Proof. apply only_never, input_event_not_computation. Qed.

(** *** Input validation *)

(** C5: when covariates are given and the sample order of the covariate
    matrix differs from the sample columns of the phenotype matrix, the
    run ends in an exception, before any genotype loading and any
    association computation; the exception is the assertion of line 79
    whenever the checks before it (the argument checks and the reading of
    the phenotypes) pass. *)
Theorem covariates_sample_order_fatal a w p :
  arg_covariates a = Some p →
  df_columns (w_phenotype_bed w).1 ≠ df_index (w_covariates w) →
  (∃ e, result (main a w) = Raise e)
  ∧ never is_computation (trace (main a w))
  ∧ (∀ ph, result (check_inputs a w) = Ret () →
           result (load_phenotypes a w) = Ret ph →
           result (main a w) = Raise (AssertionError EmptyString)).
Proof.
  intros Hc Hne.
  destruct (load_inputs_covariates_mismatch a w p Hc Hne) as [[e He] Hph].
  pose proof (check_inputs_input a w) as T1.
  pose proof (load_inputs_only a w) as T2.
  destruct (result (check_inputs a w)) as [[]|e1] eqn:E1.
  - destruct (main_stops_at_inputs a w _ e E1 He) as [Hr Ht].
    split; [eauto|]. split.
    + rewrite Ht. apply input_only_never_computation, Forall_app_2; assumption.
    + intros ph _ Eph. rewrite Hr. rewrite (Hph ph Eph) in He. congruence.
  - destruct (main_stops_at_check a w e1 E1) as [Hr Ht].
    split; [eauto|]. split.
    + rewrite Ht. apply input_only_never_computation, T1.
    + intros ph [=].
Qed.

(** X2: the same holds for the paired covariate (lines 83-89): when its
    sample columns differ from those of the phenotype matrix, the run
    ends in an exception before any genotype loading and any association
    computation, and the exception is an assertion whenever the stages
    before the reading of the paired covariate pass. *)
Proposition paired_covariate_sample_order_fatal a w p :
  arg_paired_covariate a = Some p →
  df_columns (w_paired_covariate w) ≠ df_columns (w_phenotype_bed w).1 →
  (∃ e, result (main a w) = Raise e)
  ∧ never is_computation (trace (main a w))
  ∧ (∀ ph cov, result (check_inputs a w) = Ret () →
               result (load_phenotypes a w) = Ret ph →
               result (load_covariates a w ph.1) = Ret cov →
               ∃ msg, result (main a w) = Raise (AssertionError msg)).
Proof.
  intros Hp Hne.
  assert (∀ ph cov, result (load_phenotypes a w) = Ret ph →
            ∃ msg, result (load_paired_covariate a w ph.1 cov)
                   = Raise (AssertionError msg)) as Hpaired.
  { intros ph cov E. destruct (load_phenotypes_inv _ _ _ E) as [-> _].
    unfold load_paired_covariate. rewrite Hp.
    destruct cov as [c|]; [|eexists; reflexivity]. cbn [is_not_none assert_].
    rewrite bind_mret, (result_bind_ret (emit _) _ () eq_refl).
    destruct (forallb _ _); [|eexists; reflexivity]. cbn [assert_].
    rewrite bind_mret, (bool_decide_eq_false_2 _ Hne). eexists; reflexivity. }
  assert (∀ ph cov, result (load_phenotypes a w) = Ret ph →
            result (load_covariates a w ph.1) = Ret cov →
            ∃ msg, result (load_inputs a w) = Raise (AssertionError msg)) as Hinp.
  { intros ph cov E1 E2. destruct (Hpaired ph cov E1) as [msg E3]. exists msg.
    unfold load_inputs.
    rewrite (result_bind_ret _ _ _ E1), (result_bind_ret _ _ _ E2).
    apply result_bind_raise, E3. }
  assert (∃ e, result (load_inputs a w) = Raise e) as [e He].
  { destruct (result (load_phenotypes a w)) as [ph|e] eqn:E1.
    2:{ exists e. unfold load_inputs. apply result_bind_raise, E1. }
    destruct (result (load_covariates a w ph.1)) as [cov|e] eqn:E2.
    2:{ exists e. unfold load_inputs. rewrite (result_bind_ret _ _ _ E1).
        apply result_bind_raise, E2. }
    destruct (Hinp ph cov eq_refl E2) as [msg E]. eauto. }
  pose proof (check_inputs_input a w) as T1.
  pose proof (load_inputs_only a w) as T2.
  destruct (result (check_inputs a w)) as [[]|e1] eqn:E1.
  - destruct (main_stops_at_inputs a w _ e E1 He) as [Hr Ht].
    split; [eauto|]. split.
    + rewrite Ht. apply input_only_never_computation, Forall_app_2; assumption.
    + intros ph cov _ Eph Ecov. destruct (Hinp ph cov Eph Ecov) as [msg E].
      exists msg. rewrite Hr. congruence.
  - destruct (main_stops_at_check a w e1 E1) as [Hr Ht].
    split; [eauto|]. split.
    + rewrite Ht. apply input_only_never_computation, T1.
    + intros ph cov [=].
Qed.

(** C4: when a phenotype-group mapping is given and the number of group
    changes counted along the phenotype index differs from the number of
    distinct groups of the mapping, the run ends in an exception, before
    any genotype loading and any association computation; the exception
    is the [ValueError] of line 126 whenever the stages before the group
    check pass. *)
Theorem discontiguous_groups_fatal a w p n :
  arg_phenotype_groups a = Some p →
  result (parse_groups (to_dict (w_phenotype_groups w))
            (df_index (w_phenotype_bed w).1) EmptyString 0) = Ret n →
  n ≠ length (unique (w_phenotype_groups w)) →
  (∃ e, result (main a w) = Raise e)
  ∧ never is_computation (trace (main a w))
  ∧ (∀ inp, result (check_inputs a w) = Ret () →
            result (load_inputs a w) = Ret inp →
            result (main a w) =
              Raise (ValueError
                "Groups defined in input do not match phenotype file (check sort order).")).
Proof.
  intros Hp Hn Hne.
  pose proof (check_inputs_input a w) as T1.
  pose proof (load_inputs_only a w) as T2.
  assert (∀ inp, result (load_inputs a w) = Ret inp →
            result (load_phenotype_groups a w inp) =
              Raise (ValueError
                "Groups defined in input do not match phenotype file (check sort order)."))
    as Hg.
  { intros inp E. apply (load_phenotype_groups_mismatch a w inp p n Hp); [|exact Hne].
    destruct (load_inputs_phenotypes a w inp E) as [-> _]. exact Hn. }
  destruct (result (check_inputs a w)) as [[]|e1] eqn:E1.
  2:{ destruct (main_stops_at_check a w e1 E1) as [Hr Ht].
      split; [eauto|]. split; [|intros ? [=]].
      rewrite Ht. apply input_only_never_computation, T1. }
  destruct (result (load_inputs a w)) as [inp|e2] eqn:E2.
  2:{ destruct (main_stops_at_inputs a w _ e2 E1 E2) as [Hr Ht].
      split; [eauto|]. split; [|intros ? _ [=]].
      rewrite Ht. apply input_only_never_computation, Forall_app_2; assumption. }
  destruct (main_stops_at_groups a w _ inp _ E1 E2 (Hg inp eq_refl)) as [Hr Ht].
  pose proof (load_phenotype_groups_only a w inp) as T3.
  split; [eauto|]. split.
  - rewrite Ht. apply input_only_never_computation. repeat apply Forall_app_2; assumption.
  - intros inp' _ [= <-]. exact Hr.
Qed.

(** C10: an interaction term with a mode other than [cis_nominal] or
    [trans] raises [ValueError] and no file is read; in mode [trans] an
    interaction matrix of more than one column makes the run end in an
    exception with no scan, and the exception is the
    [NotImplementedError] of line 215 whenever the stages before the
    dispatch pass. *)
Theorem interaction_checks a w p :
  arg_interaction a = Some p →
  (arg_mode a ∉ [CisNominal; Trans] →
     (∃ msg, result (main a w) = Raise (ValueError msg))
     ∧ never is_read (trace (main a w)))
  ∧ (arg_mode a = Trans → (1 < shape1 (read_interaction w))%nat →
     (∃ e, result (main a w) = Raise e)
     ∧ never is_scan (trace (main a w))
     ∧ (∀ inp group_s loaded,
          result (check_inputs a w) = Ret () →
          result (load_inputs a w) = Ret inp →
          result (load_phenotype_groups a w inp) = Ret group_s →
          result (load_genotypes a w) = Ret loaded →
          result (main a w) =
            Raise (NotImplementedError
              "trans-QTL mapping currently only supports a single interaction."))).
Proof.
  intros Hi. split.
  - intros Hm.
    destruct (check_inputs_interaction_mode a w p Hi Hm) as [msg E].
    destruct (main_stops_at_check a w _ E) as [Hr Ht].
    split; [eauto|]. rewrite Ht.
    eapply only_never; [|apply check_inputs_only]. intros []; cbn; congruence.
  - intros Hm Hs.
    assert (∀ inp group_s loaded,
              result (check_inputs a w) = Ret () →
              result (load_inputs a w) = Ret inp →
              result (load_phenotype_groups a w inp) = Ret group_s →
              result (load_genotypes a w) = Ret loaded →
              result (main a w) =
                Raise (NotImplementedError
                  "trans-QTL mapping currently only supports a single interaction.")
              ∧ only is_prelude_event (trace (main a w))) as Hd.
    { intros inp group_s loaded E1 E2 E3 E4.
      destruct (main_dispatches a w _ inp group_s loaded E1 E2 E3 E4) as [Hr Ht].
      destruct (load_inputs_interaction a w inp p E2 Hi) as (d & Hd & Hsd).
      rewrite Hr, Ht, (run_mode_trans _ _ _ _ _ _ Hm). unfold run_trans.
      rewrite (single_interaction_many inp d Hd) by (rewrite Hsd; exact Hs).
      split; [reflexivity|]. cbn [trace raise mbind M_bind fst snd]. rewrite app_nil_r.
      apply prelude_only. }
    assert (∀ t, only is_prelude_event t → never is_scan t) as Hn.
    { intros t. apply only_never. intros e He. apply (prelude_event_not e He). }
    destruct (main_cases a w) as [(e & Hr & Ht)|(inp & group_s & loaded & E1 & E2 & E3 & E4)].
    + split; [eauto|]. split; [auto|].
      intros ? ? ? F1 F2 F3 F4. apply (Hd _ _ _ F1 F2 F3 F4).
    + destruct (Hd _ _ _ E1 E2 E3 E4) as [Hr Ht].
      split; [eauto|]. split; [auto|].
      intros ? ? ? F1 F2 F3 F4. apply (Hd _ _ _ F1 F2 F3 F4).
Qed.

(** *** Runs in mode [trans] *)

Lemma load_genotypes_trans a w loaded :
  arg_mode a = Trans →
  result (load_genotypes a w) = Ret loaded →
  loaded = Some (w_genotypes w).
Proof.
  intros Hm. unfold load_genotypes. rewrite Hm.
  rewrite (bool_decide_eq_true_2 (Trans ≠ CisNominal)) by discriminate.
  rewrite orb_true_r. intros E.
  apply result_bind_inv in E as (? & _ & E).
  destruct (w_genotypes w) as [g v].
  apply result_bind_inv in E as (? & _ & E).
  injection E as <-. reflexivity.
Qed.

Lemma single_interaction_trace inp : trace (single_interaction inp) = [].
Proof. unfold single_interaction. repeat case_match; reflexivity. Qed.

(** The pairs left after the cis-exclusion step. *)
Definition trans_pairs (inp : inputs) (variant_df : option (gmap string (string * Z)))
    (c : trans_call) : list pair :=
  match variant_df with
  | Some v => filter_cis (map_trans c) (pos_dict inp) v trans_cis_window
  | None => map_trans c
  end.

Lemma exclude_cis_run inp v c :
  exclude_cis inp v (map_trans c) =
    (match v with Some _ => [Call (FilterCis trans_cis_window)] | None => [] end,
     Ret (trans_pairs inp v c)).
Proof. destruct v; reflexivity. Qed.

Lemma run_permutations_run a w inp maf g :
  run_permutations a w inp maf g =
    (if (0 <? arg_permutations a)%Z then
       let c := trans_permutation_call a inp maf g in
       [Call (MapPermutations c);
        ToCsv (permutations_txt a) (PermutationNull (map_permutations c (w_entropy w)));
        PickleDump (permutations_pickle a)
          (PermutationNull (map_permutations c (w_entropy w)))]
     else [], Ret ()).
Proof. unfold run_permutations. destruct (0 <? arg_permutations a)%Z; reflexivity. Qed.

Lemma write_pairs_run a l :
  write_pairs a l =
    ([if negb (arg_output_text a)
      then ToParquet (pairs_parquet a) (PairsTable l)
      else ToCsv (pairs_txt a) (PairsTable l)], Ret ()).
Proof. unfold write_pairs. destruct (negb (arg_output_text a)); reflexivity. Qed.

Lemma run_trans_run a w inp maf g v i :
  result (single_interaction inp) = Ret i →
  run_trans a w inp maf (Some (g, v)) =
    (Call (MapTrans (trans_scan a inp maf g i))
     :: trace (exclude_cis inp v (map_trans (trans_scan a inp maf g i)))
     ++ trace (run_permutations a w inp maf g)
     ++ trace (write_pairs a (trans_pairs inp v (trans_scan a inp maf g i))),
     Ret ()).
Proof.
  intros Ei. pose proof (single_interaction_trace inp) as Ti.
  unfold run_trans. destruct (single_interaction inp) as [t r]. cbn in Ei, Ti. subst.
  unfold exclude_cis, run_permutations, write_pairs.
  destruct v, (0 <? arg_permutations a)%Z, (arg_output_text a); reflexivity.
Qed.

Lemma run_trans_stops a w inp maf loaded e :
  result (single_interaction inp) = Raise e →
  run_trans a w inp maf loaded = ([], Raise e).
Proof.
  intros Ei. pose proof (single_interaction_trace inp) as Ti.
  unfold run_trans. destruct (single_interaction inp) as [t r]. cbn in Ei, Ti. subst.
  reflexivity.
Qed.

(** A run in mode [trans] stops before the scan, with only events of the
    stages before the dispatch, or it performs the scan, the
    cis-exclusion, the permutations and the writing of the pairs, and
    returns. *)
Lemma main_trans a w :
  arg_mode a = Trans →
  (∃ e, result (main a w) = Raise e ∧ only is_prelude_event (trace (main a w)))
  ∨ (∃ inp i pre,
       result (load_inputs a w) = Ret inp
       ∧ result (single_interaction inp) = Ret i
       ∧ only is_prelude_event pre
       ∧ result (main a w) = Ret ()
       ∧ let g := (w_genotypes w).1 in
         let v := (w_genotypes w).2 in
         let c := trans_scan a inp (select_maf_threshold a) g i in
         trace (main a w) =
           pre ++ Call (MapTrans c)
           :: trace (exclude_cis inp v (map_trans c))
           ++ trace (run_permutations a w inp (select_maf_threshold a) g)
           ++ trace (write_pairs a (trans_pairs inp v c))).
Proof.
  intros Hm.
  destruct (main_cases a w) as [?|(inp & group_s & loaded & E1 & E2 & E3 & E4)]; [auto|].
  destruct (main_dispatches a w _ inp group_s loaded E1 E2 E3 E4) as [Hr Ht].
  rewrite (run_mode_trans _ _ _ _ _ _ Hm) in Hr, Ht.
  rewrite (load_genotypes_trans a w loaded Hm E4) in Hr, Ht.
  pose proof (prelude_only a w inp) as Hpre.
  destruct (result (single_interaction inp)) as [i|e] eqn:Ei.
  - right. exists inp, i. eexists. split; [exact E2|]. split; [exact Ei|].
    split; [exact Hpre|].
    destruct (w_genotypes w) as [g v].
    rewrite (run_trans_run a w inp _ g v i Ei) in Hr, Ht.
    split; [exact Hr|]. cbn zeta. cbn [fst snd]. rewrite Ht. cbn [trace fst].
    rewrite <- !app_assoc. reflexivity.
  - left. exists e. rewrite (run_trans_stops a w inp _ _ e Ei) in Hr, Ht.
    split; [exact Hr|]. rewrite Ht. cbn [trace fst]. rewrite !app_assoc, app_nil_r.
    rewrite <- !app_assoc. exact Hpre.
Qed.

(** The event that writes the pairs. *)
Definition pairs_event (a : Namespace) (l : list pair) : event :=
  if negb (arg_output_text a)
  then ToParquet (pairs_parquet a) (PairsTable l)
  else ToCsv (pairs_txt a) (PairsTable l).

(** The events of a run in mode [trans] from the scan on. *)
Definition trans_events (a : Namespace) (w : World) (inp : inputs) (i : option frame)
    : list event :=
  let g := (w_genotypes w).1 in
  let v := (w_genotypes w).2 in
  let c := trans_scan a inp (select_maf_threshold a) g i in
  let pc := trans_permutation_call a inp (select_maf_threshold a) g in
  let null := PermutationNull (map_permutations pc (w_entropy w)) in
  Call (MapTrans c)
  :: match v with Some _ => [Call (FilterCis trans_cis_window)] | None => [] end
  ++ (if (0 <? arg_permutations a)%Z
      then [Call (MapPermutations pc); ToCsv (permutations_txt a) null;
            PickleDump (permutations_pickle a) null]
      else [])
  ++ [pairs_event a (trans_pairs inp v c)].

Lemma main_trans_events a w :
  arg_mode a = Trans →
  (∃ e, result (main a w) = Raise e ∧ only is_prelude_event (trace (main a w)))
  ∨ (∃ inp i pre,
       result (load_inputs a w) = Ret inp
       ∧ only is_prelude_event pre
       ∧ result (main a w) = Ret ()
       ∧ trace (main a w) = pre ++ trans_events a w inp i).
Proof.
  intros Hm. destruct (main_trans a w Hm) as [?|(inp & i & pre & E & _ & Hp & Hr & Ht)];
    [auto|].
  right. exists inp, i, pre. repeat (split; [assumption|]).
  cbn zeta in *. rewrite Ht.
  rewrite exclude_cis_run, run_permutations_run, write_pairs_run. reflexivity.
Qed.

(** Decomposes the membership of an event in an explicit trace. *)
Ltac elems He :=
  repeat match type of He with
  | _ ∈ _ ++ _ => apply elem_of_app in He as [He|He]
  | _ ∈ _ :: _ => apply elem_of_cons in He as [He|He]
  | _ ∈ [] => apply elem_of_nil in He; destruct He
  end.

Lemma trans_events_elem a w inp i e :
  e ∈ trans_events a w inp i →
  let g := (w_genotypes w).1 in
  let v := (w_genotypes w).2 in
  let c := trans_scan a inp (select_maf_threshold a) g i in
  let pc := trans_permutation_call a inp (select_maf_threshold a) g in
  let null := PermutationNull (map_permutations pc (w_entropy w)) in
  e = Call (MapTrans c)
  ∨ (e = Call (FilterCis trans_cis_window) ∧ is_Some v)
  ∨ ((0 < arg_permutations a)%Z
     ∧ (e = Call (MapPermutations pc) ∨ e = ToCsv (permutations_txt a) null
        ∨ e = PickleDump (permutations_pickle a) null))
  ∨ e = pairs_event a (trans_pairs inp v c).
Proof.
  unfold trans_events. cbn zeta. intros He.
  destruct (w_genotypes w).2 as [v|]; destruct (Z.ltb_spec 0 (arg_permutations a));
    elems He; subst; eauto 10.
Qed.

Lemma prelude_never P pre :
  (∀ e, is_prelude_event e = true → P e = false) → only is_prelude_event pre → never P pre.
Proof. apply only_never. Qed.

Lemma pairs_written_pairs_event a l : pairs_written (pairs_event a l) = Some l.
Proof. unfold pairs_event. destruct (negb (arg_output_text a)); reflexivity. Qed.

Lemma pairs_event_not a l :
  is_mapping (pairs_event a l) = false ∧ is_filter_cis (pairs_event a l) = false
  ∧ is_map_permutations (pairs_event a l) = false ∧ seed_of (pairs_event a l) = None.
Proof. unfold pairs_event. destruct (negb (arg_output_text a)); cbn; auto. Qed.

(** *** Spec-modelled scan and filter *)

Lemma map_trans_sparse_below c t p :
  tc_return_sparse c = true → tc_pval_threshold c = Some t →
  p ∈ map_trans c → PrimFloat.ltb (pval p) t = true.
Proof.
  unfold map_trans. intros -> ->. rewrite list_elem_of_In, filter_In. tauto.
Qed.

Lemma filter_cis_elem pairs_df pos v window p :
  p ∈ filter_cis pairs_df pos v window ↔
  p ∈ pairs_df ∧ cis_proximal pos v window p = false.
Proof.
  unfold filter_cis. rewrite !list_elem_of_In, filter_In, negb_true_iff. tauto.
Qed.

Lemma trans_pairs_subset inp v c p : p ∈ trans_pairs inp v c → p ∈ map_trans c.
Proof.
  unfold trans_pairs. destruct v; [|auto]. rewrite filter_cis_elem. tauto.
Qed.

Lemma trans_events_scan a w inp i c :
  Call (MapTrans c) ∈ trans_events a w inp i →
  c = trans_scan a inp (select_maf_threshold a) (w_genotypes w).1 i.
Proof.
  intros He. apply trans_events_elem in He. cbn zeta in He.
  destruct He as [He|[[He _]|[(_ & [He|[He|He]])|He]]]; try discriminate He.
  - injection He as ->. reflexivity.
  - unfold pairs_event in He. destruct (negb (arg_output_text a)); discriminate.
Qed.

Lemma trans_events_pairs a w inp i e l :
  e ∈ trans_events a w inp i →
  pairs_written e = Some l →
  l = trans_pairs inp (w_genotypes w).2
        (trans_scan a inp (select_maf_threshold a) (w_genotypes w).1 i).
Proof.
  intros He Hl. apply trans_events_elem in He. cbn zeta in He.
  destruct He as [He|[[He _]|[(_ & [He|[He|He]])|He]]]; subst e; try discriminate Hl.
  rewrite pairs_written_pairs_event in Hl. injection Hl as <-. reflexivity.
Qed.

Lemma trans_events_filter a w inp i win :
  Call (FilterCis win) ∈ trans_events a w inp i →
  win = trans_cis_window ∧ is_Some (w_genotypes w).2.
Proof.
  intros He. apply trans_events_elem in He. cbn zeta in He.
  destruct He as [He|[[He Hv]|[(_ & [He|[He|He]])|He]]]; try discriminate He.
  - injection He as ->. auto.
  - unfold pairs_event in He. destruct (negb (arg_output_text a)); discriminate.
Qed.

Lemma trans_events_permutations a w inp i e :
  e ∈ trans_events a w inp i →
  is_map_permutations e = true →
  (0 < arg_permutations a)%Z.
Proof.
  intros He Hp. apply trans_events_elem in He. cbn zeta in He.
  destruct He as [He|[[He _]|[(Hn & _)|He]]]; subst; try discriminate Hp; [assumption|].
  destruct (pairs_event_not a
    (trans_pairs inp (w_genotypes w).2
       (trans_scan a inp (select_maf_threshold a) (w_genotypes w).1 i)))
    as (_ & _ & Hq & _).
  congruence.
Qed.

Lemma scan_in_trans_events a w inp i :
  Call (MapTrans (trans_scan a inp (select_maf_threshold a) (w_genotypes w).1 i))
  ∈ trans_events a w inp i.
Proof. unfold trans_events. cbn zeta. apply elem_of_cons. left. reflexivity. Qed.

Lemma pairs_in_trans_events a w inp i :
  pairs_event a (trans_pairs inp (w_genotypes w).2
      (trans_scan a inp (select_maf_threshold a) (w_genotypes w).1 i))
  ∈ trans_events a w inp i.
Proof.
  unfold trans_events. cbn zeta. apply elem_of_cons. right.
  rewrite !elem_of_app. right. right. apply elem_of_cons. left. reflexivity.
Qed.

(** *** Mode [trans] *)

(** C2: in mode [trans], with no [--return_dense] and no
    [--pval_threshold], every scan is called in sparse mode with the
    p-value threshold 1e-5; a run that completes performs the scan, and
    every pair it writes has a p-value below 1e-5. *)
Theorem trans_sparse_by_default a w :
  arg_mode a = Trans →
  arg_return_dense a = false →
  arg_pval_threshold a = None →
  (∀ c, Call (MapTrans c) ∈ trace (main a w) →
     tc_return_sparse c = true ∧ tc_pval_threshold c = Some 1e-5%float)
  ∧ (result (main a w) = Ret () →
     (∃ c, Call (MapTrans c) ∈ trace (main a w))
     ∧ (∀ e l p, e ∈ trace (main a w) → pairs_written e = Some l → p ∈ l →
          PrimFloat.ltb (pval p) 1e-5%float = true)).
Proof.
  intros Hm Hd Hp.
  assert (∀ inp g i,
            tc_return_sparse (trans_scan a inp (select_maf_threshold a) g i) = true
            ∧ tc_pval_threshold (trans_scan a inp (select_maf_threshold a) g i)
              = Some 1e-5%float) as Hc.
  { intros. cbn. unfold trans_pval_threshold, trans_return_sparse. rewrite Hd, Hp. auto. }
  destruct (main_trans_events a w Hm)
    as [(x & Hr & Ht)|(inp & i & pre & _ & Hpre & Hr & Ht)].
  - split.
    + intros c He. apply (never_elem_of is_scan) in He; [discriminate|].
      revert Ht. apply prelude_never. intros e Q. apply (prelude_event_not e Q).
    + rewrite Hr. discriminate.
  - rewrite Ht. split.
    + intros c He. apply elem_of_app in He as [He|He].
      * apply (never_elem_of is_scan) in He; [discriminate|].
        revert Hpre. apply prelude_never. intros e Q. apply (prelude_event_not e Q).
      * rewrite (trans_events_scan _ _ _ _ _ He). apply Hc.
    + intros _. split.
      { eexists. apply elem_of_app. right. apply scan_in_trans_events. }
      intros e l p He Hl Hin. apply elem_of_app in He as [He|He].
      * apply (never_elem_of (λ e, is_not_none (pairs_written e))) in He.
        { rewrite Hl in He. discriminate. }
        revert Hpre. apply prelude_never. intros e' Q.
        destruct (prelude_event_not e' Q) as (_ & _ & _ & _ & _ & ->). reflexivity.
      * rewrite (trans_events_pairs _ _ _ _ _ _ He Hl) in Hin.
        apply trans_pairs_subset in Hin.
        destruct (Hc inp (w_genotypes w).1 i) as [Hs Ht'].
        exact (map_trans_sparse_below _ _ _ Hs Ht' Hin).
Qed.

(** C3: the window of the cis-exclusion is 5,000,000 bases, wider than
    the default cis window of 1,000,000 bases and not taken from
    [--window]: in mode [trans], whatever the arguments, a call of the
    filter has this window; when the variant positions are known, a run
    that completes calls the filter after the scan, and the pairs it
    writes are the pairs of the scan without any pair whose variant is on
    the chromosome of the phenotype at most 5,000,000 bases away. *)
Theorem trans_cis_exclusion a w :
  arg_mode a = Trans →
  (trans_cis_window = 5000000 ∧ default_window = 1000000
   ∧ default_window < trans_cis_window)
  ∧ (∀ win, Call (FilterCis win) ∈ trace (main a w) → win = trans_cis_window)
  ∧ (∀ v, (w_genotypes w).2 = Some v → result (main a w) = Ret () →
       Call (FilterCis trans_cis_window) ∈ trace (main a w)
       ∧ ∃ c l, Call (MapTrans c) ∈ trace (main a w)
           ∧ l = filter_cis (map_trans c) (pos_rows (w_phenotype_bed w).2) v trans_cis_window
           ∧ (∃ e, e ∈ trace (main a w) ∧ pairs_written e = Some l)
           ∧ (∀ e l', e ∈ trace (main a w) → pairs_written e = Some l' → l' = l)
           ∧ (∀ p, p ∈ l →
                p ∈ map_trans c
                ∧ cis_proximal (pos_rows (w_phenotype_bed w).2) v trans_cis_window p
                  = false)).
Proof.
  intros Hm. split; [repeat split; reflexivity|].
  destruct (main_trans_events a w Hm)
    as [(x & Hr & Ht)|(inp & i & pre & Hinp & Hpre & Hr & Ht)].
  - split.
    + intros win He. apply (never_elem_of is_filter_cis) in He; [discriminate|].
      revert Ht. apply prelude_never. intros e Q. apply (prelude_event_not e Q).
    + intros v _. rewrite Hr. discriminate.
  - rewrite Ht. split.
    + intros win He. apply elem_of_app in He as [He|He].
      * apply (never_elem_of is_filter_cis) in He; [discriminate|].
        revert Hpre. apply prelude_never. intros e Q. apply (prelude_event_not e Q).
      * apply (trans_events_filter _ _ _ _ _ He).
    + intros v Hv _.
      destruct (load_inputs_phenotypes a w inp Hinp) as [_ Hpos].
      assert (trans_pairs inp (w_genotypes w).2
                (trans_scan a inp (select_maf_threshold a) (w_genotypes w).1 i)
              = filter_cis
                  (map_trans (trans_scan a inp (select_maf_threshold a) (w_genotypes w).1 i))
                  (pos_rows (w_phenotype_bed w).2) v trans_cis_window) as Hl.
      { rewrite Hv. cbn [trans_pairs]. rewrite Hpos. reflexivity. }
      split.
      { apply elem_of_app. right. unfold trans_events. cbn zeta. rewrite Hv.
        apply elem_of_cons. right. apply elem_of_cons. left. reflexivity. }
      eexists. eexists. split.
      { apply elem_of_app. right. apply scan_in_trans_events. }
      split; [reflexivity|]. split.
      { eexists. split.
        - apply elem_of_app. right. apply pairs_in_trans_events.
        - rewrite pairs_written_pairs_event. f_equal. exact Hl. }
      split.
      { intros e l' He Hl'. apply elem_of_app in He as [He|He].
        - apply (never_elem_of (λ e, is_not_none (pairs_written e))) in He.
          { rewrite Hl' in He. discriminate. }
          revert Hpre. apply prelude_never. intros e' Q.
          destruct (prelude_event_not e' Q) as (_ & _ & _ & _ & _ & ->). reflexivity.
        - rewrite (trans_events_pairs _ _ _ _ _ _ He Hl'). exact Hl. }
      intros p Hin. apply filter_cis_elem in Hin. exact Hin.
Qed.

(** C9: in mode [trans], when the loader returns no variant position
    table, the filter is never called and the pairs written are exactly
    the pairs of the scan; a run that completes writes them. *)
Theorem trans_without_positions_unfiltered a w :
  arg_mode a = Trans →
  (w_genotypes w).2 = None →
  never is_filter_cis (trace (main a w))
  ∧ (∀ e l, e ∈ trace (main a w) → pairs_written e = Some l →
       ∃ c, Call (MapTrans c) ∈ trace (main a w) ∧ l = map_trans c)
  ∧ (result (main a w) = Ret () →
       ∃ e l, e ∈ trace (main a w) ∧ pairs_written e = Some l).
Proof.
  intros Hm Hv.
  destruct (main_trans_events a w Hm)
    as [(x & Hr & Ht)|(inp & i & pre & Hinp & Hpre & Hr & Ht)].
  - split; [|split].
    + revert Ht. apply prelude_never. intros e Q. apply (prelude_event_not e Q).
    + intros e l He Hl.
      apply (never_elem_of (λ e, is_not_none (pairs_written e))) in He.
      { rewrite Hl in He. discriminate. }
      revert Ht. apply prelude_never. intros e' Q.
      destruct (prelude_event_not e' Q) as (_ & _ & _ & _ & _ & ->). reflexivity.
    + rewrite Hr. discriminate.
  - rewrite Ht. split; [|split].
    + apply never_app.
      * revert Hpre. apply prelude_never. intros e Q. apply (prelude_event_not e Q).
      * apply Forall_forall. intros e He.
        destruct e as [| | | | | | |[]| | |]; try reflexivity.
        apply trans_events_filter in He as [_ [v Hv']]. congruence.
    + intros e l He Hl. apply elem_of_app in He as [He|He].
      * apply (never_elem_of (λ e, is_not_none (pairs_written e))) in He.
        { rewrite Hl in He. discriminate. }
        revert Hpre. apply prelude_never. intros e' Q.
        destruct (prelude_event_not e' Q) as (_ & _ & _ & _ & _ & ->). reflexivity.
      * eexists. split.
        { apply elem_of_app. right. apply scan_in_trans_events. }
        rewrite (trans_events_pairs _ _ _ _ _ _ He Hl), Hv. reflexivity.
    + intros _. eexists. eexists. split.
      * apply elem_of_app. right. apply pairs_in_trans_events.
      * apply pairs_written_pairs_event.
Qed.

(** C8: in mode [trans], the permutation procedure is called only when
    the permutation count is positive; in a run that completes it is
    called exactly when the count is positive, and what it returns is
    then written as a text table and as a pickle, just before the pairs
    are written. *)
Theorem trans_permutation_null a w :
  arg_mode a = Trans →
  (∀ e, e ∈ trace (main a w) → is_map_permutations e = true →
     (0 < arg_permutations a)%Z)
  ∧ (result (main a w) = Ret () →
     ((0 < arg_permutations a)%Z ↔
      ∃ e, e ∈ trace (main a w) ∧ is_map_permutations e = true)
     ∧ ((0 < arg_permutations a)%Z →
        ∃ pre c last l,
          trace (main a w) =
            pre ++ [Call (MapPermutations c);
                    ToCsv (permutations_txt a)
                      (PermutationNull (map_permutations c (w_entropy w)));
                    PickleDump (permutations_pickle a)
                      (PermutationNull (map_permutations c (w_entropy w)));
                    last]
          ∧ pc_nperms c = arg_permutations a
          ∧ pairs_written last = Some l)).
Proof.
  intros Hm.
  destruct (main_trans_events a w Hm)
    as [(x & Hr & Ht)|(inp & i & pre & Hinp & Hpre & Hr & Ht)].
  - split.
    + intros e He Hp. apply (never_elem_of is_map_permutations) in He; [congruence|].
      revert Ht. apply prelude_never. intros e' Q. apply (prelude_event_not e' Q).
    + rewrite Hr. discriminate.
  - assert (∀ e, e ∈ trace (main a w) → is_map_permutations e = true →
              (0 < arg_permutations a)%Z) as Honly.
    { rewrite Ht. intros e He Hp. apply elem_of_app in He as [He|He].
      - apply (never_elem_of is_map_permutations) in He; [congruence|].
        revert Hpre. apply prelude_never. intros e' Q. apply (prelude_event_not e' Q).
      - exact (trans_events_permutations _ _ _ _ _ He Hp). }
    split; [exact Honly|]. intros _.
    assert ((0 < arg_permutations a)%Z →
            ∃ pre c last l,
              trace (main a w) =
                pre ++ [Call (MapPermutations c);
                        ToCsv (permutations_txt a)
                          (PermutationNull (map_permutations c (w_entropy w)));
                        PickleDump (permutations_pickle a)
                          (PermutationNull (map_permutations c (w_entropy w)));
                        last]
              ∧ pc_nperms c = arg_permutations a
              ∧ pairs_written last = Some l) as Hrun.
    { intros Hn. rewrite Ht. unfold trans_events. cbn zeta.
      apply Z.ltb_lt in Hn. rewrite Hn.
      eexists (pre ++ Call (MapTrans _) :: match (w_genotypes w).2 with
                                          | Some _ => _ | None => _ end).
      eexists. eexists. eexists. split; [|split].
      - rewrite <- !app_assoc. cbn [app]. reflexivity.
      - reflexivity.
      - apply pairs_written_pairs_event. }
    split; [|exact Hrun]. split.
    + intros Hn. destruct (Hrun Hn) as (pre' & c & last & l & Ht' & _).
      exists (Call (MapPermutations c)). split; [|reflexivity].
      rewrite Ht'. apply elem_of_app. right. apply elem_of_cons. left. reflexivity.
    + intros (e & He & Hp). exact (Honly e He Hp).
Qed.

(** *** The dispatch *)

(** No mapper calls the genotype loader, and every permutation procedure
    is called with the seed of the command line. *)
Lemma run_mode_events a w inp maf group_s loaded :
  Forall (λ e, is_loader e = false ∧ ∀ sd, seed_of e = Some sd → sd = arg_seed a)
    (trace (run_mode a w inp maf group_s loaded)).
Proof.
  unfold run_mode, run_cis, run_cis_nominal, run_cis_independent, run_cis_susie,
    run_trans, single_interaction, loaded_genotypes, exclude_cis, run_permutations,
    write_pairs.
  repeat first [ every_step | case_match ];
    (split; [reflexivity | cbn; intros sd Hsd; congruence]).
Qed.

Lemma mode_starts_with_cis m : m ≠ Trans → startswith (mode_name m) "cis" = true.
Proof. destruct m; [reflexivity..|congruence]. Qed.

Lemma load_genotypes_no_positions a w g :
  w_genotypes w = (g, None) →
  arg_mode a ≠ Trans →
  (load_genotypes a w =
     ([LoadGenotypes (arg_genotype_path a) (arg_dosages a)],
      Raise (AssertionError
        "Genotype data without variant positions is only supported for mode='trans'.")))
  ∨ load_genotypes a w = ([], Ret None).
Proof.
  intros Hw Hm. unfold load_genotypes. rewrite Hw.
  destruct (negb (arg_load_split a) || bool_decide (arg_mode a ≠ CisNominal)).
  - left. rewrite (mode_starts_with_cis _ Hm). reflexivity.
  - right. reflexivity.
Qed.

(** C6: when the loader is called and returns no variant position table,
    every mode but [trans] fails on the assertion of line 135 with no
    mapper called; in mode [trans] the loading stage passes; so a mapper
    is called only in mode [trans]. *)
Theorem no_variant_positions_only_trans a w g :
  w_genotypes w = (g, None) →
  (∃ e, e ∈ trace (main a w) ∧ is_loader e = true) →
  (arg_mode a ≠ Trans →
     result (main a w) =
       Raise (AssertionError
         "Genotype data without variant positions is only supported for mode='trans'.")
     ∧ never is_mapping (trace (main a w)))
  ∧ (arg_mode a = Trans → result (load_genotypes a w) = Ret (Some (g, None)))
  ∧ (∀ e, e ∈ trace (main a w) → is_mapping e = true → arg_mode a = Trans).
Proof.
  intros Hw (x & Hx & Hl).
  assert (∀ t, only is_input_event t → x ∈ t → False) as Hin.
  { intros t Ht Hxt.
    pose proof (proj1 (Forall_forall _ _) Ht x Hxt) as Hi.
    destruct x; discriminate. }
  assert (arg_mode a ≠ Trans →
     result (main a w) =
       Raise (AssertionError
         "Genotype data without variant positions is only supported for mode='trans'.")
     ∧ never is_mapping (trace (main a w))) as Hcis.
  { intros Hm.
    pose proof (check_inputs_input a w) as T1.
    pose proof (load_inputs_only a w) as T2.
    destruct (result (check_inputs a w)) as [[]|e1] eqn:E1.
    2:{ destruct (main_stops_at_check a w e1 E1) as [_ Ht]. rewrite Ht in Hx.
        destruct (Hin _ T1 Hx). }
    destruct (result (load_inputs a w)) as [inp|e2] eqn:E2.
    2:{ destruct (main_stops_at_inputs a w _ e2 E1 E2) as [_ Ht]. rewrite Ht in Hx.
        destruct (Hin _ (Forall_app_2 _ _ _ T1 T2) Hx). }
    pose proof (load_phenotype_groups_only a w inp) as T3.
    assert (only is_input_event
              (trace (check_inputs a w) ++ trace (load_inputs a w)
               ++ trace (load_phenotype_groups a w inp))) as T123.
    { repeat apply Forall_app_2; assumption. }
    destruct (result (load_phenotype_groups a w inp)) as [group_s|e3] eqn:E3.
    2:{ destruct (main_stops_at_groups a w _ inp e3 E1 E2 E3) as [_ Ht]. rewrite Ht in Hx.
        destruct (Hin _ T123 Hx). }
    destruct (load_genotypes_no_positions a w g Hw Hm) as [Hg|Hg].
    - destruct (main_stops_at_genotypes a w _ inp group_s _ E1 E2 E3
                  (f_equal snd Hg)) as [Hr Ht].
      split; [exact Hr|]. rewrite Ht, Hg. cbn [trace fst].
      rewrite !app_assoc. apply never_app.
      + rewrite <- !app_assoc. revert T123. apply only_never.
        intros e He. apply input_event_not_computation in He.
        apply orb_false_elim in He. tauto.
      + repeat constructor.
    - destruct (main_dispatches a w _ inp group_s None E1 E2 E3 (f_equal snd Hg))
        as [_ Ht].
      rewrite Ht, Hg in Hx. cbn [trace fst app] in Hx. rewrite !app_assoc in Hx.
      apply elem_of_app in Hx as [Hx|Hx].
      + rewrite <- !app_assoc in Hx. destruct (Hin _ T123 Hx).
      + pose proof (run_mode_events a w inp (select_maf_threshold a) group_s None) as Hd.
        destruct (proj1 (Forall_forall _ _) Hd x Hx) as [Hl' _]. congruence. }
  split; [exact Hcis|]. split.
  - intros Hm. unfold load_genotypes. rewrite Hm, Hw.
    rewrite (bool_decide_eq_true_2 (Trans ≠ CisNominal)) by discriminate.
    rewrite orb_true_r. reflexivity.
  - intros e He Hmap. destruct (decide (arg_mode a = Trans)) as [|Hm]; [assumption|].
    destruct (Hcis Hm) as [_ Hn]. rewrite (never_elem_of _ _ _ Hn He) in Hmap.
    discriminate.
Qed.

(** *** Seeds *)

Lemma rng_state_seeded s entropy : rng_state (Some s) entropy = s.
Proof. reflexivity. Qed.

(** C7: the seed of the command line is the seed every permutation
    procedure is called with; and with a seed, two runs on the same
    inputs that differ only in the ambient state of the random generators
    perform the same events, write the same permutation assignments and
    calibrated p-values, and end the same way. *)
Theorem seeded_runs_reproducible a w s :
  arg_seed a = Some s →
  (∀ e sd, e ∈ trace (main a w) → seed_of e = Some sd → sd = Some s)
  ∧ (∀ entropy1 entropy2,
       main a (with_entropy w entropy1) = main a (with_entropy w entropy2)).
Proof.
  intros Hs. split.
  - intros e sd He Hsd. rewrite <- Hs.
    destruct (main_cases a w) as [(x & _ & Ht)|(inp & group_s & loaded & E1 & E2 & E3 & E4)].
    + pose proof (proj1 (Forall_forall _ _) Ht e He) as Hp.
      destruct (prelude_event_not e Hp) as (_ & _ & _ & _ & Hn & _). congruence.
    + destruct (main_dispatches a w _ inp group_s loaded E1 E2 E3 E4) as [_ Ht].
      rewrite Ht, !app_assoc in He. apply elem_of_app in He as [He|He].
      * assert (is_prelude_event e = true) as Hp.
        { rewrite <- !app_assoc in He. exact (only_elem_of _ _ _ (prelude_only a w inp) He). }
        destruct (prelude_event_not e Hp) as (_ & _ & _ & _ & Hn & _). congruence.
      * pose proof (run_mode_events a w inp (select_maf_threshold a) group_s loaded) as Hd.
        destruct (proj1 (Forall_forall _ _) Hd e He) as [_ Hsd']. auto.
  - intros entropy1 entropy2.
    unfold main, run_mode, run_cis, run_cis_independent, run_trans, run_permutations,
      map_cis, map_independent, map_permutations, trans_permutation_call.
    cbn [cc_seed ic_seed pc_seed w_entropy with_entropy]. rewrite Hs.
    rewrite !rng_state_seeded. reflexivity.
Qed.

(** *** Default thresholds *)

(** C1 (what the code does): when [--maf_threshold] is not given, the
    parser yields 0, never [None], so the threshold handed to the mappers
    is 0 in every mode, mode [trans] included; the branch of lines
    107-111 that would select 0.05 for [trans] is never taken. *)
Theorem maf_threshold_without_override c :
  cl_maf_threshold c = None →
  arg_maf_threshold (parse_args c) = Some 0%float
  ∧ select_maf_threshold (parse_args c) = 0%float.
Proof. intros Hc. unfold select_maf_threshold. cbn. rewrite Hc. auto. Qed.

(** The branch is sound in itself: were the parsed value [None], the
    threshold would be 0.05 in mode [trans] and 0 otherwise. *)
Lemma maf_threshold_if_none a :
  arg_maf_threshold a = None →
  select_maf_threshold a = if decide (arg_mode a = Trans) then 0.05%float else 0%float.
Proof. intros Ha. unfold select_maf_threshold. rewrite Ha. reflexivity. Qed.

End Properties.

(** ** What the check of the sort order decides *)



(** Groups are contiguous when a group that occurs again occurs next. *)
Fixpoint contiguous (gs : list string) : Prop :=
  match gs with
  | [] => True
  | g :: gs' => (g ∈ gs' → head gs' = Some g) ∧ contiguous gs'
  end.

Section Contiguity.










End Contiguity.

(** ** More of the driver: what the other checks and branches do *)

(** The events that write a file. *)
Definition is_write (e : event) : bool :=
  match e with
  | ToCsv _ _ | ToParquet _ _ | PickleDump _ _ => true
  | _ => false
  end.

(** The reads of a table in text format. *)
Definition is_read_csv (e : event) : bool :=
  match e with ReadCsv _ => true | _ => false end.

Section Checks.
Context `{Engine}.

Lemma prelude_event_not_write e : is_prelude_event e = true → is_write e = false.
Proof. destruct e; cbn; congruence. Qed.

Lemma input_event_not_write e : is_input_event e = true → is_write e = false.
Proof. destruct e; cbn; congruence. Qed.

(** A run whose loading of the inputs raises: it ends in an exception,
    with input events only. *)
Lemma main_fails_in_inputs a w :
  (∃ e, result (load_inputs a w) = Raise e) →
  (∃ e, result (main a w) = Raise e) ∧ only is_input_event (trace (main a w)).
Proof.
  intros [e He].
  pose proof (check_inputs_input a w) as T1.
  pose proof (load_inputs_only a w) as T2.
  destruct (result (check_inputs a w)) as [[]|e1] eqn:E1.
  - destruct (main_stops_at_inputs a w _ e E1 He) as [Hr Ht].
    split; [eauto|]. rewrite Ht. apply Forall_app_2; assumption.
  - destruct (main_stops_at_check a w e1 E1) as [Hr Ht].
    split; [eauto|]. rewrite Ht. exact T1.
Qed.

Lemma main_inputs_exact a w e :
  result (check_inputs a w) = Ret () →
  result (load_inputs a w) = Raise e →
  result (main a w) = Raise e.
Proof. intros E1 E2. apply (main_stops_at_inputs a w _ e E1 E2). Qed.

Lemma input_only_never P t :
  (∀ e, is_input_event e = true → P e = false) → only is_input_event t → never P t.
Proof. apply only_never. Qed.

(** *** The argument checks *)

(** X3: mode [cis_independent] without [--cis_output], or with a path
    that does not exist, raises the [ValueError] of line 52; no file is
    read, no mapper is called and nothing is written. *)
Theorem cis_independent_requires_cis_output a w :
  arg_mode a = CisIndependent →
  (∀ p, arg_cis_output a = Some p → os_path_exists w p = false) →
  result (main a w) = Raise (ValueError "Output from 'cis' mode must be provided.")
  ∧ never is_read (trace (main a w))
  ∧ never is_mapping (trace (main a w))
  ∧ never is_write (trace (main a w)).
Proof.
  intros Hm Hp.
  assert (result (check_inputs a w)
          = Raise (ValueError "Output from 'cis' mode must be provided.")) as E.
  { unfold check_inputs. rewrite Hm. cbn [decide decide_rel mode_eq_dec].
    destruct (arg_cis_output a) as [p|]; [|reflexivity].
    rewrite (Hp p eq_refl). reflexivity. }
  destruct (main_stops_at_check a w _ E) as [Hr Ht].
  split; [exact Hr|]. rewrite Ht.
  pose proof (check_inputs_only a w) as T.
  repeat split; (eapply only_never; [|exact T]); intros []; cbn; congruence.
Qed.

(** X4: an interaction with [--invnorm], in mode [cis_nominal] or
    [trans], raises the [NotImplementedError] of line 56 before anything
    is read or checked on disk. *)
Theorem interaction_with_invnorm_unsupported a w p :
  arg_interaction a = Some p →
  arg_invnorm a = true →
  arg_mode a = CisNominal ∨ arg_mode a = Trans →
  main a w =
    ([], Raise (NotImplementedError "--invnorm is not supported when using --interaction")).
Proof.
  intros Hi Hn Hm.
  assert (check_inputs a w =
    ([], Raise (NotImplementedError "--invnorm is not supported when using --interaction")))
    as E.
  { unfold check_inputs. rewrite Hi, Hn. destruct Hm as [-> | ->]; reflexivity. }
  destruct (main_stops_at_check a w _ (f_equal snd E)) as [Hr Ht].
  rewrite E in Ht. cbn [trace fst] in Ht.
  destruct (main a w) as [t r]. cbn in Hr, Ht. subst. reflexivity.
Qed.

(** *** The loading of the inputs *)

(** X5: when the second column of the position table of the phenotypes
    is not named [pos], the run stops on the assertion of line 72: of the
    inputs only the phenotype file was read, no covariates, no groups and
    no genotypes. *)
Theorem phenotype_bed_needs_pos_column a w c :
  pos_columns (w_phenotype_bed w).2 !! 1%nat = Some c →
  c ≠ "pos" →
  (∃ e, result (main a w) = Raise e)
  ∧ never is_read_csv (trace (main a w))
  ∧ never is_computation (trace (main a w))
  ∧ (result (check_inputs a w) = Ret () →
       result (main a w) =
         Raise (AssertionError
           "The BED file must define the TSS/cis-window center, with start+1 == end.")).
Proof.
  intros Hc Hne.
  assert (load_phenotypes a w =
    ([ReadPhenotypeBed (arg_phenotype_bed a)],
     Raise (AssertionError
       "The BED file must define the TSS/cis-window center, with start+1 == end.")))
    as Eph.
  { unfold load_phenotypes. destruct (w_phenotype_bed w) as [d pos]. cbn [snd] in Hc.
    rewrite Hc. apply String.eqb_neq in Hne. rewrite Hne. reflexivity. }
  assert (load_inputs a w =
    ([ReadPhenotypeBed (arg_phenotype_bed a)],
     Raise (AssertionError
       "The BED file must define the TSS/cis-window center, with start+1 == end.")))
    as Einp.
  { unfold load_inputs. rewrite Eph. reflexivity. }
  pose proof (check_inputs_only a w) as T1.
  assert (never is_read_csv (trace (check_inputs a w))
          ∧ never is_computation (trace (check_inputs a w))) as [N1 N2].
  { split; (eapply only_never; [|exact T1]); intros []; cbn; congruence. }
  destruct (result (check_inputs a w)) as [[]|e1] eqn:E1.
  - destruct (main_stops_at_inputs a w _ _ E1 (f_equal snd Einp)) as [Hr Ht].
    rewrite Ht, Einp. cbn [trace fst].
    split; [eauto|]. split; [|split].
    + apply never_app; [exact N1|repeat constructor].
    + apply never_app; [exact N2|repeat constructor].
    + intros _. exact Hr.
  - destruct (main_stops_at_check a w e1 E1) as [Hr Ht]. rewrite Ht.
    split; [eauto|]. split; [exact N1|]. split; [exact N2|]. intros [=].
Qed.

(** X6: a paired covariate without covariates stops the run on the
    assertion of line 84: the paired covariate file is not read (no table
    is), and nothing is computed. *)
Theorem paired_covariate_requires_covariates a w p :
  arg_paired_covariate a = Some p →
  arg_covariates a = None →
  (∃ e, result (main a w) = Raise e)
  ∧ never is_read_csv (trace (main a w))
  ∧ never is_computation (trace (main a w))
  ∧ (∀ ph, result (check_inputs a w) = Ret () →
           result (load_phenotypes a w) = Ret ph →
           result (main a w) =
             Raise (AssertionError
               "Covariates matrix must be provided when using paired covariate")).
Proof.
  intros Hp Hc.
  assert (∀ ph, result (load_phenotypes a w) = Ret ph →
            result (load_inputs a w) =
              Raise (AssertionError
                "Covariates matrix must be provided when using paired covariate")
            ∧ trace (load_inputs a w) = trace (load_phenotypes a w)) as Hph.
  { intros ph E. unfold load_inputs.
    rewrite (result_bind_ret _ _ _ E), (trace_bind_ret _ _ _ E).
    unfold load_covariates, load_paired_covariate. rewrite Hc, Hp.
    rewrite bind_mret. cbn. rewrite app_nil_r. auto. }
  assert (trace (load_phenotypes a w) = [ReadPhenotypeBed (arg_phenotype_bed a)]) as Tph.
  { unfold load_phenotypes, assert_, raise_if. destruct (w_phenotype_bed w) as [d pos].
    repeat case_match; reflexivity. }
  assert ((∃ e, result (load_inputs a w) = Raise e)
          ∧ trace (load_inputs a w) = [ReadPhenotypeBed (arg_phenotype_bed a)]) as [Hr Ht].
  { destruct (result (load_phenotypes a w)) as [ph|e] eqn:E.
    - destruct (Hph ph eq_refl) as [-> ->]. eauto.
    - unfold load_inputs.
      rewrite (result_bind_raise _ _ _ E), (trace_bind_raise _ _ _ E). eauto. }
  destruct Hr as [e He].
  pose proof (check_inputs_only a w) as T1.
  assert (never is_read_csv (trace (check_inputs a w))
          ∧ never is_computation (trace (check_inputs a w))) as [N1 N2].
  { split; (eapply only_never; [|exact T1]); intros []; cbn; congruence. }
  destruct (result (check_inputs a w)) as [[]|e1] eqn:E1.
  - destruct (main_stops_at_inputs a w _ _ E1 He) as [Hr Htr].
    rewrite Htr, Ht. split; [eauto|]. split; [|split].
    + apply never_app; [exact N1|repeat constructor].
    + apply never_app; [exact N2|repeat constructor].
    + intros ph _ Eph. rewrite Hr. destruct (Hph ph Eph) as [E' _]. congruence.
  - destruct (main_stops_at_check a w e1 E1) as [Hr Htr]. rewrite Htr.
    split; [eauto|]. split; [exact N1|]. split; [exact N2|]. intros ph [=].
Qed.

(** X7: an interaction without covariates cannot be loaded: line 102
    takes the index of a covariate matrix that is [None].  The run ends in
    an exception before any genotype loading and any association
    computation; it is an [AttributeError] when the argument checks and
    the reading of the phenotypes pass and no paired covariate is given. *)
Theorem interaction_requires_covariates a w p :
  arg_interaction a = Some p →
  arg_covariates a = None →
  (∃ e, result (main a w) = Raise e)
  ∧ never is_computation (trace (main a w))
  ∧ (∀ ph, result (check_inputs a w) = Ret () →
           result (load_phenotypes a w) = Ret ph →
           arg_paired_covariate a = None →
           result (main a w) = Raise AttributeError).
Proof.
  intros Hi Hc.
  assert (∀ ph, result (load_phenotypes a w) = Ret ph →
            (∃ e, result (load_inputs a w) = Raise e)
            ∧ (arg_paired_covariate a = None →
               result (load_inputs a w) = Raise AttributeError)) as Hph.
  { intros ph E. unfold load_inputs. rewrite (result_bind_ret _ _ _ E).
    unfold load_covariates. rewrite Hc, bind_mret.
    unfold load_paired_covariate, load_interaction. rewrite Hi.
    destruct (arg_paired_covariate a) as [q|].
    - split; [eexists; reflexivity|discriminate].
    - rewrite bind_mret. split; [eexists; reflexivity|reflexivity]. }
  assert (∃ e, result (load_inputs a w) = Raise e) as Hr.
  { destruct (result (load_phenotypes a w)) as [ph|e] eqn:E.
    - apply (Hph ph eq_refl).
    - exists e. unfold load_inputs. apply result_bind_raise, E. }
  destruct (main_fails_in_inputs a w Hr) as [Hm Ht].
  split; [exact Hm|]. split; [apply input_only_never_computation, Ht|].
  intros ph E1 Eph Hq. destruct (Hph ph Eph) as [_ He].
  apply (main_inputs_exact a w _ E1 (He Hq)).
Qed.

(** *** Phenotypes without a group *)

Lemma to_dict_lookup_None (s : list (string * string)) i :
  to_dict s !! i = None ↔ i ∉ s.*1.
Proof.
  unfold to_dict. rewrite <- not_elem_of_list_to_map, fmap_reverse, elem_of_reverse.
  reflexivity.
Qed.

Lemma parse_groups_missing d pre i rest prev n :
  Forall (λ j, is_Some (d !! j)) pre →
  d !! i = None →
  parse_groups d (pre ++ i :: rest) prev n = raise (KeyError i).
Proof.
  intros Hpre Hi. revert prev n.
  induction Hpre as [|j pre [g Hj] _ IH]; intros prev n; cbn.
  - rewrite Hi. reflexivity.
  - rewrite Hj. case_bool_decide; apply IH.
Qed.

(** X8: when groups are given and a phenotype of the phenotype file has
    no row in the mapping, the walk stops at the first such phenotype: the
    run ends in an exception before any genotype loading and any
    association computation, and it is the [KeyError] of that phenotype
    whenever the stages before the group check pass. *)
Theorem missing_group_is_key_error a w p pre i rest :
  arg_phenotype_groups a = Some p →
  df_index (w_phenotype_bed w).1 = pre ++ i :: rest →
  Forall (λ j, j ∈ (w_phenotype_groups w).*1) pre →
  i ∉ (w_phenotype_groups w).*1 →
  (∃ e, result (main a w) = Raise e)
  ∧ never is_computation (trace (main a w))
  ∧ (∀ inp, result (check_inputs a w) = Ret () →
            result (load_inputs a w) = Ret inp →
            result (main a w) = Raise (KeyError i)).
Proof.
  intros Hp Hidx Hpre Hi.
  assert (∀ inp, result (load_inputs a w) = Ret inp →
            result (load_phenotype_groups a w inp) = Raise (KeyError i)) as Hg.
  { intros inp E. destruct (load_inputs_phenotypes a w inp E) as [Hph _].
    unfold load_phenotype_groups. rewrite Hp, Hph, Hidx.
    rewrite (result_bind_ret (emit _) _ () eq_refl).
    rewrite parse_groups_missing; [reflexivity| |].
    - eapply Forall_impl; [exact Hpre|]. intros j Hj. cbn in Hj.
      destruct (to_dict (w_phenotype_groups w) !! j) eqn:Ej; [eauto|].
      apply to_dict_lookup_None in Ej. contradiction.
    - apply to_dict_lookup_None, Hi. }
  pose proof (check_inputs_input a w) as T1.
  pose proof (load_inputs_only a w) as T2.
  destruct (result (check_inputs a w)) as [[]|e1] eqn:E1.
  2:{ destruct (main_stops_at_check a w e1 E1) as [Hr Ht].
      split; [eauto|]. split; [|intros ? [=]].
      rewrite Ht. apply input_only_never_computation, T1. }
  destruct (result (load_inputs a w)) as [inp|e2] eqn:E2.
  2:{ destruct (main_stops_at_inputs a w _ e2 E1 E2) as [Hr Ht].
      split; [eauto|]. split; [|intros ? _ [=]].
      rewrite Ht. apply input_only_never_computation, Forall_app_2; assumption. }
  destruct (main_stops_at_groups a w _ inp _ E1 E2 (Hg inp eq_refl)) as [Hr Ht].
  pose proof (load_phenotype_groups_only a w inp) as T3.
  split; [eauto|]. split.
  - rewrite Ht. apply input_only_never_computation. repeat apply Forall_app_2; assumption.
  - intros inp' _ [= <-]. exact Hr.
Qed.

(** *** Samples at the mappers *)








(** *** What holds of every event of a run *)

(** A property of events holds along a run when it holds of the events
    before the dispatch and of the events of the dispatch. *)
Lemma main_every (Q : event → Prop) a w :
  (∀ e, is_prelude_event e = true → Q e) →
  (∀ inp group_s loaded,
     result (load_inputs a w) = Ret inp →
     result (load_genotypes a w) = Ret loaded →
     Forall Q (trace (run_mode a w inp (select_maf_threshold a) group_s loaded))) →
  Forall Q (trace (main a w)).
Proof.
  intros Hpre Hrun.
  assert (∀ t, only is_prelude_event t → Forall Q t) as Hp.
  { intros t Ht. eapply Forall_impl; [exact Ht|]. exact Hpre. }
  destruct (main_cases a w) as [(x & _ & Ht)|(inp & group_s & loaded & E1 & E2 & E3 & E4)].
  - apply Hp, Ht.
  - destruct (main_dispatches a w _ inp group_s loaded E1 E2 E3 E4) as [_ Ht].
    rewrite Ht, !app_assoc. apply Forall_app_2; [|apply Hrun; assumption].
    rewrite <- !app_assoc. apply Hp, prelude_only.
Qed.

(** The mode a call belongs to. *)
Definition mapper_mode (e : event) : option mode :=
  match e with
  | Call (MapCis _) | Call (CalculateQvalues _ _) => Some Cis
  | Call (MapNominal _) | Call (GetSignificantPairs _ _) => Some CisNominal
  | Call (MapIndependent _) => Some CisIndependent
  | Call (SusieMap _) => Some CisSusie
  | Call (MapTrans _) | Call (FilterCis _) | Call (MapPermutations _) => Some Trans
  | _ => None
  end.

(** X10: a run only calls the procedures of its mode: [cis.map_cis] and
    the q-values in mode [cis], [cis.map_nominal] and the significant
    pairs in mode [cis_nominal], [cis.map_independent] in mode
    [cis_independent], [susie.map] in mode [cis_susie], and the scan, the
    cis filter and the permutations in mode [trans]. *)
Theorem mapper_matches_mode a w e m :
  e ∈ trace (main a w) →
  mapper_mode e = Some m →
  arg_mode a = m.
Proof.
  intros He Hm.
  refine (proj1 (Forall_forall (λ e, ∀ m, mapper_mode e = Some m → arg_mode a = m) _)
            _ e He m Hm).
  apply main_every.
  - intros x Hx k. destruct x; discriminate.
  - intros inp group_s loaded _ _.
    unfold run_mode, run_cis, run_cis_nominal, run_cis_independent, run_cis_susie,
      run_trans, single_interaction, loaded_genotypes, exclude_cis, run_permutations,
      write_pairs.
    repeat first [ every_step | case_match ];
      intros k Hk; first [ discriminate Hk | injection Hk as <-; assumption ].
Qed.

(** The arguments of a mapper that come from the command line. *)
Definition maf_threshold_of (e : event) : option float :=
  match e with
  | Call (MapCis c) => Some (cc_maf_threshold c)
  | Call (MapNominal c) => Some (nc_maf_threshold c)
  | Call (MapIndependent c) => Some (ic_maf_threshold c)
  | Call (SusieMap c) => Some (sc_maf_threshold c)
  | Call (MapTrans c) => Some (tc_maf_threshold c)
  | Call (MapPermutations c) => Some (pc_maf_threshold c)
  | _ => None
  end.

Definition window_of (e : event) : option Z :=
  match e with
  | Call (MapCis c) => Some (cc_window c)
  | Call (MapNominal c) => Some (nc_window c)
  | Call (MapIndependent c) => Some (ic_window c)
  | Call (SusieMap c) => Some (sc_window c)
  | _ => None
  end.

Definition permutations_of (e : event) : option Z :=
  match e with
  | Call (MapCis c) => Some (cc_nperm c)
  | Call (MapIndependent c) => Some (ic_nperm c)
  | Call (MapPermutations c) => Some (pc_nperms c)
  | _ => None
  end.

(** X11: what the user typed reaches the mappers unchanged.  On every
    command line, each mapper called gets the MAF threshold of
    [--maf_threshold], or 0 without the flag; each cis mapper gets the
    window of [--window], or 1000000; each permutation procedure gets the
    count of [--permutations], or 10000. *)
Theorem command_line_reaches_mappers c w e :
  e ∈ trace (tensorqtl c w) →
  (∀ t, maf_threshold_of e = Some t → t = default 0%float (cl_maf_threshold c))
  ∧ (∀ x, window_of e = Some x → x = default 1000000 (cl_window c))
  ∧ (∀ n, permutations_of e = Some n → n = default 10000 (cl_permutations c)).
Proof.
  intros He. unfold tensorqtl in He.
  refine (proj1 (Forall_forall
    (λ e, (∀ t, maf_threshold_of e = Some t → t = default 0%float (cl_maf_threshold c))
          ∧ (∀ x, window_of e = Some x → x = default 1000000 (cl_window c))
          ∧ (∀ n, permutations_of e = Some n → n = default 10000 (cl_permutations c))) _)
    _ e He).
  apply main_every.
  - intros x Hx. destruct x; try discriminate; repeat split; discriminate.
  - intros inp group_s loaded _ _.
    change (select_maf_threshold (parse_args c))
      with (default 0%float (cl_maf_threshold c)).
    generalize (default 0%float (cl_maf_threshold c)). intros maf.
    unfold run_mode, run_cis, run_cis_nominal, run_cis_independent, run_cis_susie,
      run_trans, single_interaction, loaded_genotypes, exclude_cis, run_permutations,
      write_pairs.
    repeat first [ every_step | case_match ];
      repeat split; intros k Hk;
      first [ discriminate Hk | injection Hk as <-; reflexivity ].
Qed.




(** *** Failures come first *)

Lemma for_each_emit {A} (g : A → event) (l : list A) :
  for_each l (λ x, emit (g x)) = (g <$> l, Ret ()).
Proof.
  induction l as [|x l IH]; [reflexivity|]. cbn [for_each]. rewrite IH. reflexivity.
Qed.

Lemma run_mode_raise a w inp maf group_s loaded e :
  result (run_mode a w inp maf group_s loaded) = Raise e →
  Forall (λ x, is_mapping x = false ∧ is_write x = false)
    (trace (run_mode a w inp maf group_s loaded)).
Proof.
  unfold run_mode, run_cis, run_cis_nominal, run_cis_independent, run_cis_susie,
    run_trans, single_interaction, loaded_genotypes, exclude_cis, run_permutations,
    write_pairs.
  rewrite ?for_each_emit.
  repeat first [ case_match | progress cbn ];
    intros Hr; try discriminate Hr; repeat constructor.
Qed.

Lemma driver_failure_precedes_work_aux a w e :
  result (main a w) = Raise e →
  never is_mapping (trace (main a w)) ∧ never is_write (trace (main a w)).
Proof.
  intros Hr.
  assert (∀ t, only is_prelude_event t → never is_mapping t ∧ never is_write t) as Hp.
  { intros t Ht. split; (eapply only_never; [|exact Ht]); intros x Hx.
    - apply (prelude_event_not x Hx).
    - apply (prelude_event_not_write x Hx). }
  destruct (main_cases a w) as [(x & _ & Ht)|(inp & group_s & loaded & E1 & E2 & E3 & E4)].
  - apply Hp, Ht.
  - destruct (main_dispatches a w _ inp group_s loaded E1 E2 E3 E4) as [Hd Ht].
    rewrite Hd in Hr. apply run_mode_raise in Hr.
    rewrite Ht, !app_assoc.
    destruct (Hp _ (prelude_only a w inp)) as [P1 P2]. rewrite <- !app_assoc in *.
    split.
    + rewrite !app_assoc. apply never_app; [rewrite <- !app_assoc; exact P1|].
      eapply Forall_impl; [exact Hr|]. intros ? [? _]. assumption.
    + rewrite !app_assoc. apply never_app; [rewrite <- !app_assoc; exact P2|].
      eapply Forall_impl; [exact Hr|]. intros ? [_ ?]. assumption.
Qed.

(** X13: every exception the driver raises itself comes before any work:
    a run that ends in one of them has called no mapper and has written
    no table and no pickle. *)
Theorem driver_failure_precedes_work a w e :
  result (main a w) = Raise e →
  never is_mapping (trace (main a w)) ∧ never is_write (trace (main a w)).
Proof. apply driver_failure_precedes_work_aux. Qed.

(** *** Mode [cis_susie] *)

Lemma run_mode_cis_susie a w inp maf group_s loaded :
  arg_mode a = CisSusie →
  run_mode a w inp maf group_s loaded = run_cis_susie a w inp maf loaded.
Proof. intros Hm. unfold run_mode. rewrite Hm. reflexivity. Qed.

(** X14: mode [cis_susie] is not checked for [--cis_output] beforehand:
    without it, the run loads all the inputs and the genotypes and only
    then fails, on the [endswith] of line 192 applied to [None]; no mapper
    is called and nothing is written. *)
Theorem cis_susie_requires_cis_output a w :
  arg_mode a = CisSusie →
  arg_cis_output a = None →
  (∃ e, result (main a w) = Raise e)
  ∧ never is_mapping (trace (main a w))
  ∧ never is_write (trace (main a w))
  ∧ (∀ inp group_s loaded,
       result (check_inputs a w) = Ret () →
       result (load_inputs a w) = Ret inp →
       result (load_phenotype_groups a w inp) = Ret group_s →
       result (load_genotypes a w) = Ret loaded →
       result (main a w) = Raise AttributeError
       ∧ LoadGenotypes (arg_genotype_path a) (arg_dosages a) ∈ trace (main a w)).
Proof.
  intros Hm Hc.
  assert (∀ inp group_s loaded,
       result (check_inputs a w) = Ret () →
       result (load_inputs a w) = Ret inp →
       result (load_phenotype_groups a w inp) = Ret group_s →
       result (load_genotypes a w) = Ret loaded →
       result (main a w) = Raise AttributeError
       ∧ LoadGenotypes (arg_genotype_path a) (arg_dosages a) ∈ trace (main a w)) as Hd.
  { intros inp group_s loaded E1 E2 E3 E4.
    destruct (main_dispatches a w _ inp group_s loaded E1 E2 E3 E4) as [Hr Ht].
    rewrite (run_mode_cis_susie _ _ _ _ _ _ Hm) in Hr, Ht.
    unfold run_cis_susie in Hr, Ht. rewrite Hc in Hr, Ht.
    split; [exact Hr|]. rewrite Ht. rewrite !elem_of_app. right. right. right. left.
    unfold load_genotypes in E4 |- *. rewrite Hm in E4 |- *.
    rewrite (bool_decide_eq_true_2 (CisSusie ≠ CisNominal)) in E4 |- * by discriminate.
    rewrite orb_true_r in E4 |- *.
    rewrite (trace_bind_ret (emit _) _ () eq_refl). apply elem_of_app. left.
    apply elem_of_cons. left. reflexivity. }
  assert (∃ e, result (main a w) = Raise e) as [e He].
  { destruct (main_cases a w) as [(x & Hx & _)|(inp & group_s & loaded & E1 & E2 & E3 & E4)].
    - eauto.
    - destruct (Hd inp group_s loaded E1 E2 E3 E4) as [Hr _]. eauto. }
  destruct (driver_failure_precedes_work_aux a w e He) as [N1 N2]. eauto 10.
Qed.

(** *** Mode [cis] *)

Lemma run_mode_cis a w inp maf group_s loaded :
  arg_mode a = Cis →
  run_mode a w inp maf group_s loaded = run_cis a w inp maf group_s loaded.
Proof. intros Hm. unfold run_mode. rewrite Hm. reflexivity. Qed.

Definition is_qvalues (e : event) : bool :=
  match e with Call (CalculateQvalues _ _) => true | _ => false end.

(** The arguments of [cis.map_cis] (lines 139-142). *)
Definition cis_permutation_call (a : Namespace) (inp : inputs) (maf_threshold : float)
    (group_s : option (list (string * string)))
    (g : frame * option (gmap string (string * Z))) : cis_call := {|
  cc_genotype_df := g.1; cc_variant_df := g.2;
  cc_phenotype_df := phenotype_df inp; cc_phenotype_pos_df := phenotype_pos_df inp;
  cc_covariates_df := covariates_df inp; cc_group_s := group_s;
  cc_paired_covariate_df := paired_covariate_df inp;
  cc_nperm := arg_permutations a; cc_window := arg_window a;
  cc_beta_approx := negb (arg_disable_beta_approx a);
  cc_maf_threshold := maf_threshold;
  cc_warn_monomorphic := arg_warn_monomorphic a;
  cc_seed := arg_seed a;
  cc_inverse_normal_transform := arg_invnorm a
|}.

Lemma run_cis_run a w inp maf group_s g :
  run_cis a w inp maf group_s (Some g) =
    (Call (MapCis (cis_permutation_call a inp maf group_s g))
     :: (if w_has_rpy2 w
         then [Call (CalculateQvalues (arg_fdr a) (arg_qvalue_lambda a))]
         else [])
     ++ [ToCsv (os_path_join (arg_output_dir a) (arg_prefix a +:+ ".cis_qtl.txt.gz"))
           (CisTable (map_cis (cis_permutation_call a inp maf group_s g) (w_entropy w))
              (w_has_rpy2 w))],
     Ret ()).
Proof. unfold run_cis. destruct (w_has_rpy2 w); reflexivity. Qed.

(** X15: in mode [cis], the q-values are computed exactly when [rpy2]
    is available, and the table of [cis.map_cis] is written to
    [<prefix>.cis_qtl.txt.gz] in either case: a run that completes is the
    stages before the dispatch, the call of [cis.map_cis], the q-values if
    [rpy2] is there, and the writing of the table. *)
Theorem cis_qvalues_need_rpy2 a w :
  arg_mode a = Cis →
  result (main a w) = Ret () →
  (∃ pre c,
     only is_prelude_event pre
     ∧ cc_beta_approx c = negb (arg_disable_beta_approx a)
     ∧ trace (main a w) =
         pre ++ Call (MapCis c)
         :: (if w_has_rpy2 w
             then [Call (CalculateQvalues (arg_fdr a) (arg_qvalue_lambda a))]
             else [])
         ++ [ToCsv (os_path_join (arg_output_dir a) (arg_prefix a +:+ ".cis_qtl.txt.gz"))
               (CisTable (map_cis c (w_entropy w)) (w_has_rpy2 w))])
  ∧ ((∃ e, e ∈ trace (main a w) ∧ is_qvalues e = true) ↔ w_has_rpy2 w = true).
Proof.
  intros Hm Hr.
  destruct (main_cases a w) as [(x & Hx & _)|(inp & group_s & loaded & E1 & E2 & E3 & E4)];
    [congruence|].
  destruct (main_dispatches a w _ inp group_s loaded E1 E2 E3 E4) as [Hd Ht].
  rewrite (run_mode_cis _ _ _ _ _ _ Hm) in Hd, Ht. rewrite Hd in Hr.
  destruct loaded as [g|]; [|discriminate Hr].
  rewrite run_cis_run in Ht. cbn [trace fst] in Ht.
  assert (∃ pre c,
     only is_prelude_event pre
     ∧ cc_beta_approx c = negb (arg_disable_beta_approx a)
     ∧ trace (main a w) =
         pre ++ Call (MapCis c)
         :: (if w_has_rpy2 w
             then [Call (CalculateQvalues (arg_fdr a) (arg_qvalue_lambda a))]
             else [])
         ++ [ToCsv (os_path_join (arg_output_dir a) (arg_prefix a +:+ ".cis_qtl.txt.gz"))
               (CisTable (map_cis c (w_entropy w)) (w_has_rpy2 w))]) as Hshape.
  { eexists. eexists. split; [exact (prelude_only a w inp)|]. split; [|].
    2:{ rewrite Ht, <- !app_assoc. reflexivity. }
    reflexivity. }
  split; [exact Hshape|].
  destruct Hshape as (pre & c & Hpre & _ & Hs). rewrite Hs. split.
  - intros (e & He & Hq). apply elem_of_app in He as [He|He].
    + pose proof (only_elem_of _ _ _ Hpre He) as Hp. destruct e; discriminate.
    + destruct (w_has_rpy2 w); [reflexivity|].
      apply elem_of_cons in He as [->|He]; [discriminate|].
      apply elem_of_cons in He as [->|He]; [discriminate|].
      apply elem_of_nil in He. destruct He.
  - intros ->. exists (Call (CalculateQvalues (arg_fdr a) (arg_qvalue_lambda a))).
    split; [|reflexivity].
    apply elem_of_app. right. apply elem_of_cons. right. apply elem_of_cons. left.
    reflexivity.
Qed.

(** *** Mode [cis_nominal] with [--load_split] *)

(** The call of [cis.map_nominal] for one chromosome (lines 166-174). *)
Definition chromosome_call (a : Namespace) (w : World) (inp : inputs)
    (maf_threshold : float) (chrom : string) : nominal_call := {|
  nc_genotype_df := w_plink_region w chrom;
  nc_variant_df := Some (filter (λ kv, kv.2.1 = chrom) (w_plink_bim w));
  nc_phenotype_df := frame_on (phenotype_pos_df inp) chrom (phenotype_df inp);
  nc_phenotype_pos_df := pos_on chrom (phenotype_pos_df inp);
  nc_prefix := arg_prefix a; nc_chrom := Some chrom;
  nc_covariates_df := covariates_df inp;
  nc_interaction_df := interaction_df inp;
  nc_maf_threshold_interaction := arg_maf_threshold_interaction a;
  nc_window := arg_window a; nc_maf_threshold := maf_threshold;
  nc_output_dir := arg_output_dir a;
  nc_write_stats := negb (arg_best_only a);
  nc_inverse_normal_transform := arg_invnorm a
|}.

Lemma run_cis_nominal_split a w inp maf group_s loaded :
  arg_load_split a = true →
  run_cis_nominal a w inp maf group_s loaded =
    (PlinkReader (arg_genotype_path a)
     :: ((λ chrom, Call (MapNominal (chromosome_call a w inp maf chrom)))
         <$> w_plink_chrs w)
     ++ (if is_not_none (interaction_df inp)
         then [ToCsv (os_path_join (arg_output_dir a)
                        (arg_prefix a +:+ ".cis_qtl_top_assoc.txt.gz"))
                 (OtherTable "top_assoc")]
         else []),
     Ret ()).
Proof.
  intros Hs. unfold run_cis_nominal. rewrite Hs. cbn [negb].
  rewrite (for_each_emit
    (λ chrom, Call (MapNominal (chromosome_call a w inp maf chrom)))).
  destruct (is_not_none (interaction_df inp)); cbn; rewrite ?app_nil_r; reflexivity.
Qed.

Lemma run_mode_cis_nominal a w inp maf group_s loaded :
  arg_mode a = CisNominal →
  run_mode a w inp maf group_s loaded = run_cis_nominal a w inp maf group_s loaded.
Proof. intros Hm. unfold run_mode. rewrite Hm. reflexivity. Qed.

Lemma load_genotypes_split a w :
  arg_mode a = CisNominal → arg_load_split a = true →
  load_genotypes a w = ([], Ret None).
Proof.
  intros Hm Hs. unfold load_genotypes. rewrite Hm, Hs.
  rewrite (bool_decide_eq_false_2 (CisNominal ≠ CisNominal)) by (intros Hn; apply Hn; reflexivity).
  reflexivity.
Qed.

(** A run with [--load_split]: it stops in the reading of the inputs,
    or it goes through the chromosomes. *)
Lemma main_split a w :
  arg_mode a = CisNominal → arg_load_split a = true →
  (∃ e, result (main a w) = Raise e ∧ only is_input_event (trace (main a w)))
  ∨ (∃ inp pre,
       result (load_inputs a w) = Ret inp
       ∧ only is_input_event pre
       ∧ main a w =
           (pre ++ PlinkReader (arg_genotype_path a)
            :: ((λ chrom, Call (MapNominal
                   (chromosome_call a w inp (select_maf_threshold a) chrom)))
                <$> w_plink_chrs w)
            ++ (if is_not_none (interaction_df inp)
                then [ToCsv (os_path_join (arg_output_dir a)
                               (arg_prefix a +:+ ".cis_qtl_top_assoc.txt.gz"))
                        (OtherTable "top_assoc")]
                else []),
            Ret ())).
Proof.
  intros Hm Hs.
  pose proof (check_inputs_input a w) as T1.
  pose proof (load_inputs_only a w) as T2.
  destruct (result (check_inputs a w)) as [[]|e] eqn:E1.
  2:{ left. exists e. destruct (main_stops_at_check a w e E1) as [-> ->]. auto. }
  destruct (result (load_inputs a w)) as [inp|e] eqn:E2.
  2:{ left. exists e. destruct (main_stops_at_inputs a w _ e E1 E2) as [-> ->].
      split; [reflexivity|]. apply Forall_app_2; assumption. }
  pose proof (load_phenotype_groups_only a w inp) as T3.
  destruct (result (load_phenotype_groups a w inp)) as [group_s|e] eqn:E3.
  2:{ left. exists e. destruct (main_stops_at_groups a w _ inp e E1 E2 E3) as [-> ->].
      split; [reflexivity|]. repeat apply Forall_app_2; assumption. }
  right. exists inp.
  exists (trace (check_inputs a w) ++ trace (load_inputs a w)
          ++ trace (load_phenotype_groups a w inp)).
  split; [reflexivity|]. split; [repeat apply Forall_app_2; assumption|].
  pose proof (load_genotypes_split a w Hm Hs) as Eg.
  destruct (main_dispatches a w _ inp group_s None E1 E2 E3 (f_equal snd Eg)) as [Hr Ht].
  rewrite (run_mode_cis_nominal _ _ _ _ _ _ Hm),
    (run_cis_nominal_split a w inp _ group_s None Hs) in Hr, Ht.
  rewrite Eg in Ht. cbn [trace result fst snd app] in Hr, Ht.
  destruct (main a w) as [t r]. cbn [trace result fst snd] in Hr, Ht. subst.
  rewrite <- !app_assoc. reflexivity.
Qed.

(** The chromosomes [cis.map_nominal] is called on, in the order of the
    calls ([None]: a call on all the genotypes). *)
Definition nominal_chromosomes (t : list event) : list (option string) :=
  omap (λ e, match e with Call (MapNominal c) => Some (nc_chrom c) | _ => None end) t.

Definition is_significant_pairs (e : event) : bool :=
  match e with Call (GetSignificantPairs _ _) => true | _ => false end.

Lemma nominal_chromosomes_inputs t :
  only is_input_event t → nominal_chromosomes t = [].
Proof.
  unfold nominal_chromosomes. induction 1 as [|e t He _ IH]; [reflexivity|].
  cbn. rewrite IH. destruct e; try discriminate; reflexivity.
Qed.

Lemma nominal_chromosomes_calls (g : string → nominal_call) chrs :
  (∀ chrom, nc_chrom (g chrom) = Some chrom) →
  nominal_chromosomes ((λ chrom, Call (MapNominal (g chrom))) <$> chrs) = Some <$> chrs.
Proof.
  intros Hg. unfold nominal_chromosomes.
  induction chrs as [|c chrs IH]; [reflexivity|]. cbn. rewrite Hg, IH. reflexivity.
Qed.

(** X16: with [--load_split] in mode [cis_nominal], the genotypes are
    never loaded as a whole and the significant pairs are never computed,
    [--cis_output] or not; when the inputs load and the genotype reader
    has a chromosome, the run completes with one call of
    [cis.map_nominal] for each chromosome of the reader, in its order.
    (Without any chromosome, [pd.concat] of line 177 has nothing to
    concatenate.) *)
Theorem load_split_maps_each_chromosome a w :
  arg_mode a = CisNominal →
  arg_load_split a = true →
  never is_loader (trace (main a w))
  ∧ never is_significant_pairs (trace (main a w))
  ∧ (∀ inp group_s,
       w_plink_chrs w ≠ [] →
       result (check_inputs a w) = Ret () →
       result (load_inputs a w) = Ret inp →
       result (load_phenotype_groups a w inp) = Ret group_s →
       result (main a w) = Ret ()
       ∧ PlinkReader (arg_genotype_path a) ∈ trace (main a w)
       ∧ nominal_chromosomes (trace (main a w)) = Some <$> w_plink_chrs w).
Proof.
  intros Hm Hs.
  assert (∀ P t, (∀ e, is_input_event e = true → P e = false) →
            only is_input_event t → never P t) as Hin.
  { intros P t HP. apply only_never, HP. }
  destruct (main_split a w Hm Hs) as [(e & Hr & Ht)|(inp & pre & E2 & Hpre & Hmain)].
  - split; [|split].
    + revert Ht. apply Hin. intros []; cbn; congruence.
    + revert Ht. apply Hin. intros []; cbn; congruence.
    + intros inp group_s _ E1 E2 E3.
      destruct (main_dispatches a w _ inp group_s None E1 E2 E3
                  (f_equal snd (load_genotypes_split a w Hm Hs))) as [Hd _].
      rewrite (run_mode_cis_nominal _ _ _ _ _ _ Hm),
        (run_cis_nominal_split a w inp _ group_s None Hs) in Hd.
      rewrite Hd in Hr. discriminate Hr.
  - rewrite Hmain. cbn [trace result fst snd].
    assert (∀ P, (∀ e, is_input_event e = true → P e = false) →
              P (PlinkReader (arg_genotype_path a)) = false →
              (∀ c, P (Call (MapNominal c)) = false) →
              (∀ p x, P (ToCsv p x) = false) →
              never P
                (pre ++ PlinkReader (arg_genotype_path a)
                 :: ((λ chrom, Call (MapNominal
                        (chromosome_call a w inp (select_maf_threshold a) chrom)))
                     <$> w_plink_chrs w)
                 ++ (if is_not_none (interaction_df inp)
                     then [ToCsv (os_path_join (arg_output_dir a)
                                    (arg_prefix a +:+ ".cis_qtl_top_assoc.txt.gz"))
                             (OtherTable "top_assoc")]
                     else []))) as Hnever.
    { intros P HP Hplink Hcall Hcsv. apply never_app; [apply (Hin P pre HP Hpre)|].
      apply Forall_cons_2; [exact Hplink|]. apply Forall_app_2.
      - apply Forall_fmap, Forall_forall. intros chrom _. apply Hcall.
      - destruct (is_not_none (interaction_df inp)); repeat constructor. apply Hcsv. }
    split; [|split].
    + apply Hnever; try reflexivity. intros []; cbn; congruence.
    + apply Hnever; try reflexivity. intros []; cbn; congruence.
    + intros inp' group_s _ _ E2' _. assert (inp' = inp) as -> by congruence.
      split; [reflexivity|]. split.
      * apply elem_of_app. right. apply elem_of_cons. left. reflexivity.
      * unfold nominal_chromosomes. rewrite omap_app. cbn [omap list_omap].
        rewrite omap_app.
        fold (nominal_chromosomes pre). rewrite (nominal_chromosomes_inputs pre Hpre).
        fold (nominal_chromosomes
                ((λ chrom, Call (MapNominal
                    (chromosome_call a w inp (select_maf_threshold a) chrom)))
                 <$> w_plink_chrs w)).
        rewrite (nominal_chromosomes_calls
                   (chromosome_call a w inp (select_maf_threshold a)))
          by reflexivity.
        destruct (is_not_none (interaction_df inp)); cbn; rewrite app_nil_r; reflexivity.
Qed.

(** X17: with [--load_split], each call of [cis.map_nominal] is on one
    chromosome only: it gets the genotypes of the region of that
    chromosome, only variants on it, and only phenotypes whose position
    is on it. *)
Theorem load_split_calls_one_chromosome a w c chrom :
  arg_mode a = CisNominal →
  arg_load_split a = true →
  Call (MapNominal c) ∈ trace (main a w) →
  nc_chrom c = Some chrom →
  chrom ∈ w_plink_chrs w
  ∧ nc_genotype_df c = w_plink_region w chrom
  ∧ (∀ variants id v, nc_variant_df c = Some variants → variants !! id = Some v →
       w_plink_bim w !! id = Some v ∧ v.1 = chrom)
  ∧ (∀ id, id ∈ df_index (nc_phenotype_df c) →
       ∃ pos, pos_rows (w_phenotype_bed w).2 !! id = Some (chrom, pos))
  ∧ (∀ id v, pos_rows (nc_phenotype_pos_df c) !! id = Some v → v.1 = chrom).
Proof.
  intros Hm Hs He Hc.
  destruct (main_split a w Hm Hs) as [(e & _ & Ht)|(inp & pre & E2 & Hpre & Hmain)].
  { pose proof (only_elem_of _ _ _ Ht He) as Hx. discriminate. }
  rewrite Hmain in He. cbn [trace fst] in He.
  apply elem_of_app in He as [He|He].
  { pose proof (only_elem_of _ _ _ Hpre He) as Hx. discriminate. }
  apply elem_of_cons in He as [He|He]; [discriminate|].
  apply elem_of_app in He as [He|He].
  2:{ destruct (is_not_none (interaction_df inp)).
      - apply elem_of_cons in He as [He|He]; [discriminate|].
        apply elem_of_nil in He. destruct He.
      - apply elem_of_nil in He. destruct He. }
  apply list_elem_of_fmap in He as (chrom' & Hcall & Hin).
  injection Hcall as ->. cbn [nc_chrom chromosome_call] in Hc. injection Hc as ->.
  destruct (load_inputs_inv a w inp E2) as (ph & cov & paired & inter & Eph & _ & _ & _ & ->).
  destruct (load_phenotypes_inv a w ph Eph) as [Hph Hpos].
  cbn [nc_genotype_df nc_variant_df nc_phenotype_df nc_phenotype_pos_df chromosome_call
       phenotype_df phenotype_pos_df].
  split; [exact Hin|]. split; [reflexivity|]. split; [|split].
  - intros variants id v [= <-] Hv.
    apply map_lookup_filter_Some in Hv as [Hv Hchr]. auto.
  - intros id Hid. unfold frame_on, df_index in Hid. cbn [df_rows] in Hid.
    apply list_elem_of_fmap in Hid as (r & -> & Hr).
    apply list_elem_of_In, filter_In in Hr as [_ Hon].
    unfold on_chromosome in Hon. rewrite Hpos in Hon.
    destruct (pos_rows (w_phenotype_bed w).2 !! r.1) as [[chr pos]|]; [|discriminate].
    apply String.eqb_eq in Hon as ->. eauto.
  - intros id v Hv. unfold pos_on in Hv. cbn [pos_rows] in Hv.
    apply map_lookup_filter_Some in Hv as [_ Hchr]. exact Hchr.
Qed.

(** *** Mode [cis_nominal] on all the genotypes *)

(** X18: in mode [cis_nominal] without [--load_split], the significant
    pairs are computed exactly when [--cis_output] is given: a run that
    completes is the stages before the dispatch and one call of
    [cis.map_nominal] on all the genotypes, followed, with [--cis_output],
    by the reading of that table, the computation of the significant
    pairs and their writing to [<prefix>.cis_qtl.signif_pairs.parquet]. *)
Theorem significant_pairs_need_cis_output a w :
  arg_mode a = CisNominal →
  arg_load_split a = false →
  result (main a w) = Ret () →
  ∃ pre c,
    only is_prelude_event pre
    ∧ nc_chrom c = None
    ∧ nc_genotype_df c = (w_genotypes w).1
    ∧ trace (main a w) =
        pre ++ Call (MapNominal c)
        :: match arg_cis_output a with
           | Some p =>
               [ReadCsv p; Call (GetSignificantPairs p (arg_fdr a));
                ToParquet
                  (os_path_join (arg_output_dir a)
                     (arg_prefix a +:+ ".cis_qtl.signif_pairs.parquet"))
                  (OtherTable "signif_pairs")]
           | None => []
           end.
Proof.
  intros Hm Hs Hr.
  destruct (main_cases a w) as [(x & Hx & _)|(inp & group_s & loaded & E1 & E2 & E3 & E4)];
    [congruence|].
  destruct (main_dispatches a w _ inp group_s loaded E1 E2 E3 E4) as [Hd Ht].
  rewrite (run_mode_cis_nominal _ _ _ _ _ _ Hm) in Hd, Ht. rewrite Hd in Hr.
  assert (loaded = Some (w_genotypes w)) as ->.
  { unfold load_genotypes in E4. rewrite Hs in E4. cbn [negb orb] in E4.
    apply result_bind_inv in E4 as (? & _ & E4). destruct (w_genotypes w) as [g v].
    apply result_bind_inv in E4 as (? & _ & E4). injection E4 as <-. reflexivity. }
  exists (trace (check_inputs a w) ++ trace (load_inputs a w)
          ++ trace (load_phenotype_groups a w inp) ++ trace (load_genotypes a w)).
  eexists. split; [exact (prelude_only a w inp)|].
  rewrite Ht, <- !app_assoc. unfold run_cis_nominal. rewrite Hs.
  cbn [negb loaded_genotypes]. rewrite bind_mret.
  split; [|split]; [| |do 4 f_equal; destruct (arg_cis_output a); reflexivity];
    reflexivity.
Qed.

(** *** The pairs of mode [trans] *)

Lemma snoc_shape {A} (pre : list A) h l1 l2 x :
  pre ++ h :: l1 ++ l2 ++ [x] = (pre ++ h :: l1 ++ l2) ++ [x].
Proof. rewrite <- !app_assoc. cbn [app]. rewrite <- !app_assoc. reflexivity. Qed.

(** X19: a run in mode [trans] that completes writes the pairs once, as
    its last step: to [<prefix>.trans_qtl_pairs.parquet], or with
    [--output_text] to [<prefix>.trans_qtl_pairs.txt.gz]; nothing before
    is a table of pairs. *)
Theorem trans_pairs_written_last a w :
  arg_mode a = Trans →
  result (main a w) = Ret () →
  ∃ before l,
    trace (main a w) =
      before ++ [if arg_output_text a
                 then ToCsv (os_path_join (arg_output_dir a)
                               (arg_prefix a +:+ ".trans_qtl_pairs.txt.gz"))
                        (PairsTable l)
                 else ToParquet (os_path_join (arg_output_dir a)
                                   (arg_prefix a +:+ ".trans_qtl_pairs.parquet"))
                        (PairsTable l)]
    ∧ Forall (λ e, pairs_written e = None) before.
Proof.
  intros Hm Hr.
  destruct (main_trans_events a w Hm)
    as [(x & Hx & _)|(inp & i & pre & _ & Hpre & _ & Ht)]; [congruence|].
  rewrite Ht. unfold trans_events. cbn zeta. rewrite snoc_shape.
  match goal with |- context [?b ++ [pairs_event a ?l]] => exists b, l end.
  split.
  - f_equal. unfold pairs_event, pairs_txt, pairs_parquet.
    destruct (arg_output_text a); reflexivity.
  - apply Forall_app_2.
    + eapply Forall_impl; [exact Hpre|]. intros e He. apply (prelude_event_not e He).
    + apply Forall_cons_2; [reflexivity|]. apply Forall_app_2.
      * destruct (w_genotypes w).2; repeat constructor.
      * destruct (0 <? arg_permutations a)%Z; repeat constructor.
Qed.

End Checks.

(** ** A small cohort, to run the driver on *)

Module Toy.

(** An engine on three fixed pairs; its permutation procedures return
    the state of the generator they were started from. *)
Definition pairs : list pair :=
  [ {| variant_id := "v1"; phenotype_id := "g1"; pval := 1e-9%float |};
    {| variant_id := "v2"; phenotype_id := "g1"; pval := 1e-7%float |};
    {| variant_id := "v3"; phenotype_id := "g2"; pval := 0.5%float |} ].

Definition drawn (state : Z) : permutation_result :=
  {| assignments := [[Z.to_nat state]]; calibrated := [] |}.

#[local] Instance engine : Engine := {|
  float32 := id;
  association_pairs := λ _ _ _ _ _ _, pairs;
  cis_permutations := λ _ state, drawn state;
  independent_permutations := λ _ state, drawn state;
  trans_permutations := λ _ state, drawn state
|}.

Definition phenotypes : frame := {|
  df_rows := [("g1", [1%float; 2%float]); ("g2", [0%float; 1%float]);
              ("g3", [3%float; 1%float])];
  df_columns := ["s1"; "s2"]
|}.

Definition positions : pos_frame := {|
  pos_columns := ["chr"; "pos"];
  pos_rows := <["g1" := ("chr1", 1000)]> (<["g2" := ("chr2", 5000)]>
              (<["g3" := ("chr2", 9000)]> ∅))
|}.

Definition genotypes : frame := {|
  df_rows := [("v1", [0%float; 1%float]); ("v2", [2%float; 1%float]);
              ("v3", [1%float; 1%float])];
  df_columns := ["s1"; "s2"]
|}.

Definition variants : gmap string (string * Z) :=
  <["v1" := ("chr1", 2000)]> (<["v2" := ("chr2", 7000000)]> (<["v3" := ("chr2", 100)]> ∅)).

(** Covariates with the samples in the order of the phenotypes, and in
    another order. *)
Definition covariates : frame := {|
  df_rows := [("s1", [1%float]); ("s2", [0%float])]; df_columns := ["c1"] |}.
Definition covariates_swapped : frame := {|
  df_rows := [("s2", [0%float]); ("s1", [1%float])]; df_columns := ["c1"] |}.

(** An interaction file of two interaction terms. *)
Definition interactions : frame := {|
  df_rows := [("s1", [1%float; 1%float]); ("s2", [0%float; 1%float])];
  df_columns := ["age"; "sex"] |}.

Definition world (cov : frame) (groups : list (string * string))
    (v : option (gmap string (string * Z))) : World := {|
  os_path_exists := λ _, false;
  w_phenotype_bed := (phenotypes, positions);
  w_covariates := cov;
  w_paired_covariate := phenotypes;
  w_interaction_line2_fields := 3;
  w_interaction_headerless := interactions;
  w_interaction_header := interactions;
  w_phenotype_groups := groups;
  w_genotypes := (genotypes, v);
  w_plink_chrs := ["chr1"; "chr2"];
  w_plink_region := λ _, genotypes;
  w_plink_bim := variants;
  w_has_rpy2 := false;
  w_cis_output_has_qval := false;
  w_cis_output_phenotypes := λ _, ["g1"];
  w_entropy := 42
|}.

(** [tensorqtl.py geno pheno.bed out --mode m] with the optional flags
    [--covariates], [--interaction], [--phenotype_groups] and [--seed]. *)
Definition command_line (m : mode) (cov inter groups : option string) (seed : option Z)
    : CommandLine := {|
  cl_genotype_path := "geno"; cl_phenotype_bed := "pheno.bed"; cl_prefix := "out";
  cl_mode := Some m;
  cl_covariates := cov; cl_paired_covariate := None; cl_permutations := None;
  cl_L := None; cl_interaction := inter; cl_cis_output := None;
  cl_phenotype_groups := groups; cl_window := None; cl_pval_threshold := None;
  cl_maf_threshold := None; cl_maf_threshold_interaction := None;
  cl_dosages := false; cl_return_dense := false; cl_return_r2 := false;
  cl_best_only := false; cl_output_text := false; cl_batch_size := None;
  cl_invnorm := false; cl_load_split := false; cl_disable_beta_approx := false;
  cl_warn_monomorphic := false; cl_fdr := None; cl_qvalue_lambda := None;
  cl_seed := seed; cl_output_dir := None
|}.

Definition args (m : mode) (cov inter groups : option string) (seed : option Z)
    : Namespace := parse_args (command_line m cov inter groups seed).

(** Contiguous groups, and groups that come back after another one. *)
Definition groups_sorted : list (string * string) :=
  [("g1", "A"); ("g2", "B"); ("g3", "B")].
Definition groups_unsorted : list (string * string) :=
  [("g1", "A"); ("g2", "B"); ("g3", "A")].

(** A plain trans run: the scan is sparse at 1e-5, the pair of [v1] and
    [g1], 1000 bases apart on chr1, is filtered out, and 10000
    permutations are run. *)
Example trans_run :
  main (args Trans None None None None) (world covariates [] (Some variants)) =
    ([ReadPhenotypeBed "pheno.bed"; LoadGenotypes "geno" false;
      Call (MapTrans
        {| tc_genotype_df := genotypes; tc_phenotype_df := phenotypes;
           tc_covariates_df := None; tc_interaction_s := None;
           tc_return_sparse := true; tc_pval_threshold := Some 1e-5%float;
           tc_maf_threshold := 0%float; tc_batch_size := 20000;
           tc_return_r2 := false; tc_inverse_normal_transform := false |});
      Call (FilterCis 5000000);
      Call (MapPermutations
        {| pc_genotype_df := genotypes; pc_covariates_df := None; pc_nperms := 10000;
           pc_maf_threshold := 0%float; pc_batch_size := 20000; pc_seed := None;
           pc_inverse_normal_transform := false |});
      ToCsv "./out.permutations.txt.gz" (PermutationNull (drawn 42));
      PickleDump "./out.permutations.pickle" (PermutationNull (drawn 42));
      ToParquet "./out.trans_qtl_pairs.parquet"
        (PairsTable
           [{| variant_id := "v2"; phenotype_id := "g1"; pval := 1e-7%float |}])],
     Ret ()).
Proof. vm_compute. reflexivity. Qed.

(** A cis run on genotypes without variant positions stops at once. *)
Example cis_run_without_positions :
  main (args Cis None None None None) (world covariates [] None) =
    ([ReadPhenotypeBed "pheno.bed"; LoadGenotypes "geno" false],
     Raise (AssertionError
       "Genotype data without variant positions is only supported for mode='trans'.")).
Proof. vm_compute. reflexivity. Qed.

(** Sorted groups pass the check of the sort order; the walk counts 2
    groups out of 2. *)
Example sorted_groups_pass :
  result (load_phenotype_groups (args Cis None None (Some "groups.txt") None)
            (world covariates groups_sorted None)
            {| phenotype_df := phenotypes; phenotype_pos_df := positions;
               pos_dict := pos_rows positions; covariates_df := None;
               paired_covariate_df := None; interaction_df := None |})
  = Ret (Some groups_sorted).
Proof. vm_compute. reflexivity. Qed.

(** *** The theorems at the cohort *)

(** Covariates in another sample order: the run stops on the assertion,
    after reading the phenotypes and the covariates only. *)
Lemma covariates_sample_order_fatal_witness :
  result (main (args Cis (Some "cov.txt") None None None)
            (world covariates_swapped [] (Some variants)))
  = Raise (AssertionError EmptyString)
  ∧ never is_computation
      (trace (main (args Cis (Some "cov.txt") None None None)
                (world covariates_swapped [] (Some variants)))).
Proof.
  destruct (covariates_sample_order_fatal
              (args Cis (Some "cov.txt") None None None)
              (world covariates_swapped [] (Some variants)) "cov.txt")
    as (_ & Hn & He).
  - reflexivity.
  - vm_compute. discriminate.
  - split; [|exact Hn]. apply (He (phenotypes, positions)); reflexivity.
Defined.

(** Groups A, B, A: the walk counts 3 groups, the mapping has 2. *)
Lemma discontiguous_groups_fatal_witness :
  result (main (args Cis None None (Some "groups.txt") None)
            (world covariates groups_unsorted (Some variants)))
  = Raise (ValueError
             "Groups defined in input do not match phenotype file (check sort order).")
  ∧ never is_computation
      (trace (main (args Cis None None (Some "groups.txt") None)
                (world covariates groups_unsorted (Some variants)))).
Proof.
  destruct (discontiguous_groups_fatal
              (args Cis None None (Some "groups.txt") None)
              (world covariates groups_unsorted (Some variants)) "groups.txt" 3%nat)
    as (_ & Hn & He).
  - reflexivity.
  - vm_compute. reflexivity.
  - vm_compute. discriminate.
  - split; [|exact Hn].
    apply (He {| phenotype_df := phenotypes;
                 phenotype_pos_df := positions;
                 pos_dict := pos_rows positions; covariates_df := None;
                 paired_covariate_df := None; interaction_df := None |});
      vm_compute; reflexivity.
Defined.

(** An interaction in mode [cis], and two interaction terms in mode
    [trans]. *)
Lemma interaction_checks_witness :
  ((∃ msg, result (main (args Cis (Some "cov.txt") (Some "inter.txt") None None)
                     (world covariates [] (Some variants)))
           = Raise (ValueError msg))
   ∧ never is_read
       (trace (main (args Cis (Some "cov.txt") (Some "inter.txt") None None)
                 (world covariates [] (Some variants)))))
  ∧ (result (main (args Trans (Some "cov.txt") (Some "inter.txt") None None)
               (world covariates [] (Some variants)))
     = Raise (NotImplementedError
                "trans-QTL mapping currently only supports a single interaction.")
     ∧ never is_scan
         (trace (main (args Trans (Some "cov.txt") (Some "inter.txt") None None)
                   (world covariates [] (Some variants))))).
Proof.
  split.
  - apply (interaction_checks (args Cis (Some "cov.txt") (Some "inter.txt") None None)
             (world covariates [] (Some variants)) "inter.txt" eq_refl).
    vm_compute. intros Hin. apply list_elem_of_In in Hin.
    destruct Hin as [Hin|[Hin|[]]]; discriminate Hin.
  - destruct (interaction_checks (args Trans (Some "cov.txt") (Some "inter.txt") None None)
                (world covariates [] (Some variants)) "inter.txt" eq_refl) as [_ Ht].
    destruct (Ht eq_refl) as (_ & Hn & He).
    + vm_compute. lia.
    + split; [|exact Hn].
      eapply He; vm_compute; reflexivity.
Defined.

(** The plain trans run: sparse at 1e-5, and the pair written is below. *)
Lemma trans_sparse_by_default_witness :
  (∃ c, Call (MapTrans c)
        ∈ trace (main (args Trans None None None None)
                   (world covariates [] (Some variants))))
  ∧ (∀ e l p,
       e ∈ trace (main (args Trans None None None None)
                    (world covariates [] (Some variants))) →
       pairs_written e = Some l → p ∈ l →
       PrimFloat.ltb (pval p) 1e-5%float = true).
Proof.
  apply (trans_sparse_by_default (args Trans None None None None)
           (world covariates [] (Some variants))); reflexivity.
Defined.

(** The plain trans run: the filter is called with 5,000,000 bases and
    the pairs written are the pairs of the scan that are not
    cis-proximal. *)
Lemma trans_cis_exclusion_witness :
  Call (FilterCis 5000000)
  ∈ trace (main (args Trans None None None None) (world covariates [] (Some variants)))
  ∧ ∃ c l,
      Call (MapTrans c)
      ∈ trace (main (args Trans None None None None)
                 (world covariates [] (Some variants)))
      ∧ l = filter_cis (map_trans c) (pos_rows positions) variants 5000000
      ∧ (∃ e, e ∈ trace (main (args Trans None None None None)
                           (world covariates [] (Some variants)))
              ∧ pairs_written e = Some l)
      ∧ (∀ e l',
           e ∈ trace (main (args Trans None None None None)
                        (world covariates [] (Some variants))) →
           pairs_written e = Some l' → l' = l)
      ∧ (∀ p, p ∈ l →
           p ∈ map_trans c ∧ cis_proximal (pos_rows positions) variants 5000000 p = false).
Proof.
  destruct (trans_cis_exclusion (args Trans None None None None)
              (world covariates [] (Some variants)) eq_refl) as (_ & _ & Hv).
  apply (Hv variants); reflexivity.
Defined.

(** Without variant positions the pairs of the scan are written as they
    are. *)
Lemma trans_without_positions_unfiltered_witness :
  never is_filter_cis
    (trace (main (args Trans None None None None) (world covariates [] None)))
  ∧ (∀ e l,
       e ∈ trace (main (args Trans None None None None) (world covariates [] None)) →
       pairs_written e = Some l →
       ∃ c, Call (MapTrans c)
            ∈ trace (main (args Trans None None None None) (world covariates [] None))
            ∧ l = map_trans c)
  ∧ ∃ e l,
      e ∈ trace (main (args Trans None None None None) (world covariates [] None))
      ∧ pairs_written e = Some l.
Proof.
  destruct (trans_without_positions_unfiltered (args Trans None None None None)
              (world covariates [] None) eq_refl eq_refl) as (Hn & Hp & Hw).
  split; [exact Hn|]. split; [exact Hp|]. apply Hw. reflexivity.
Defined.

(** The plain trans run: 10000 permutations by default, and the null is
    written twice before the pairs. *)
Lemma trans_permutation_null_witness :
  ∃ pre c last l,
    trace (main (args Trans None None None None) (world covariates [] (Some variants)))
    = pre ++ [Call (MapPermutations c);
              ToCsv "./out.permutations.txt.gz"
                (PermutationNull (map_permutations c 42));
              PickleDump "./out.permutations.pickle"
                (PermutationNull (map_permutations c 42));
              last]
    ∧ pc_nperms c = 10000
    ∧ pairs_written last = Some l.
Proof.
  destruct (trans_permutation_null (args Trans None None None None)
              (world covariates [] (Some variants)) eq_refl) as [_ Hr].
  destruct (Hr eq_refl) as [_ Hw]. apply Hw. reflexivity.
Defined.

(** Mode [cis] on genotypes without variant positions. *)
Lemma no_variant_positions_only_trans_witness :
  result (main (args Cis None None None None) (world covariates [] None))
  = Raise (AssertionError
      "Genotype data without variant positions is only supported for mode='trans'.")
  ∧ never is_mapping (trace (main (args Cis None None None None) (world covariates [] None))).
Proof.
  destruct (no_variant_positions_only_trans (args Cis None None None None)
              (world covariates [] None) genotypes eq_refl) as (Hc & _ & _).
  - exists (LoadGenotypes "geno" false). split; [|reflexivity].
    vm_compute. apply elem_of_cons. right. apply elem_of_cons. left. reflexivity.
  - apply Hc. discriminate.
Defined.

(** With [--seed 7], the run does not depend on the ambient state. *)
Lemma seeded_runs_reproducible_witness :
  (∀ e sd,
     e ∈ trace (main (args Cis None None None (Some 7)) (world covariates [] (Some variants)))
     → seed_of e = Some sd → sd = Some 7)
  ∧ (∀ entropy1 entropy2,
       main (args Cis None None None (Some 7))
         (with_entropy (world covariates [] (Some variants)) entropy1)
       = main (args Cis None None None (Some 7))
           (with_entropy (world covariates [] (Some variants)) entropy2)).
Proof.
  apply (seeded_runs_reproducible (args Cis None None None (Some 7))
           (world covariates [] (Some variants)) 7). reflexivity.
Defined.

(** Without a seed the permutations follow the ambient state: the model
    does tell seeded from unseeded runs. *)
Example unseeded_runs_differ :
  main (args Cis None None None None) (with_entropy (world covariates [] (Some variants)) 1)
  ≠ main (args Cis None None None None) (with_entropy (world covariates [] (Some variants)) 2).
Proof. vm_compute. intros [= Hd]. Qed.

(** [--mode trans] without [--maf_threshold]: the threshold is 0. *)
Lemma maf_threshold_without_override_witness :
  arg_maf_threshold (args Trans None None None None) = Some 0%float
  ∧ select_maf_threshold (args Trans None None None None) = 0%float.
Proof.
  apply (maf_threshold_without_override (command_line Trans None None None None)).
  reflexivity.
Defined.

(** The mapping names a group that no phenotype of the cohort has: the
    walk along g1, g2, g3 counts 3 groups and the mapping has 3, so the
    check passes although group A comes back after group B. *)
Example extra_group_hides_unsorted_groups :
  result (load_phenotype_groups (args Cis None None (Some "groups.txt") None)
            (world covariates (groups_unsorted ++ [("g4", "C")]) None)
            {| phenotype_df := phenotypes; phenotype_pos_df := positions;
               pos_dict := pos_rows positions; covariates_df := None;
               paired_covariate_df := None; interaction_df := None |})
  = Ret (Some (groups_unsorted ++ [("g4", "C")])).
Proof. vm_compute. reflexivity. Qed.

(** Groups A, B, B are contiguous; groups A, B, A are not. *)
Example sorted_groups_contiguous : contiguous ["A"; "B"; "B"].
Proof.
  cbn. repeat split; intros Hin; try reflexivity;
    apply list_elem_of_In in Hin; cbn in Hin; intuition discriminate.
Qed.

Example unsorted_groups_not_contiguous : ¬ contiguous ["A"; "B"; "A"].
Proof.
  intros [Ha _]. cbn in Ha.
  assert (Some "B" = Some "A") as Hba; [|discriminate Hba].
  apply Ha, list_elem_of_In. cbn. auto.
Qed.


(** A paired covariate on other samples than the phenotypes. *)
Lemma paired_covariate_sample_order_fatal_witness :
  (∃ msg, result (main (parse_args
             {| cl_genotype_path := "geno"; cl_phenotype_bed := "pheno.bed";
                cl_prefix := "out"; cl_mode := Some Cis;
                cl_covariates := Some "cov.txt"; cl_paired_covariate := Some "paired.txt";
                cl_permutations := None; cl_L := None; cl_interaction := None;
                cl_cis_output := None; cl_phenotype_groups := None; cl_window := None;
                cl_pval_threshold := None; cl_maf_threshold := None;
                cl_maf_threshold_interaction := None; cl_dosages := false;
                cl_return_dense := false; cl_return_r2 := false; cl_best_only := false;
                cl_output_text := false; cl_batch_size := None; cl_invnorm := false;
                cl_load_split := false; cl_disable_beta_approx := false;
                cl_warn_monomorphic := false; cl_fdr := None; cl_qvalue_lambda := None;
                cl_seed := None; cl_output_dir := None |})
             {| os_path_exists := λ _, false;
                w_phenotype_bed := (phenotypes, positions);
                w_covariates := covariates;
                w_paired_covariate := covariates_swapped;
                w_interaction_line2_fields := 2;
                w_interaction_headerless := interactions;
                w_interaction_header := interactions;
                w_phenotype_groups := [];
                w_genotypes := (genotypes, Some variants);
                w_plink_chrs := []; w_plink_region := λ _, genotypes;
                w_plink_bim := variants; w_has_rpy2 := false;
                w_cis_output_has_qval := false;
                w_cis_output_phenotypes := λ _, [];
                w_entropy := 0 |})
          = Raise (AssertionError msg)).
Proof.
  eapply (paired_covariate_sample_order_fatal _ _ "paired.txt").
  - reflexivity.
  - vm_compute. discriminate.
  - reflexivity.
  - vm_compute. reflexivity.
  - vm_compute. reflexivity.
Defined.

(** *** More runs on the cohort *)

(** A command line with further flags: [--paired_covariate],
    [--cis_output], [--invnorm] and [--load_split]. *)
Definition flags (c : CommandLine) (paired cis_output : option string)
    (invnorm load_split : bool) : CommandLine := {|
  cl_genotype_path := cl_genotype_path c; cl_phenotype_bed := cl_phenotype_bed c;
  cl_prefix := cl_prefix c; cl_mode := cl_mode c;
  cl_covariates := cl_covariates c; cl_paired_covariate := paired;
  cl_permutations := cl_permutations c; cl_L := cl_L c;
  cl_interaction := cl_interaction c; cl_cis_output := cis_output;
  cl_phenotype_groups := cl_phenotype_groups c; cl_window := cl_window c;
  cl_pval_threshold := cl_pval_threshold c; cl_maf_threshold := cl_maf_threshold c;
  cl_maf_threshold_interaction := cl_maf_threshold_interaction c;
  cl_dosages := cl_dosages c; cl_return_dense := cl_return_dense c;
  cl_return_r2 := cl_return_r2 c; cl_best_only := cl_best_only c;
  cl_output_text := cl_output_text c; cl_batch_size := cl_batch_size c;
  cl_invnorm := invnorm; cl_load_split := load_split;
  cl_disable_beta_approx := cl_disable_beta_approx c;
  cl_warn_monomorphic := cl_warn_monomorphic c; cl_fdr := cl_fdr c;
  cl_qvalue_lambda := cl_qvalue_lambda c; cl_seed := cl_seed c;
  cl_output_dir := cl_output_dir c
|}.

(** The cohort with another phenotype file. *)
Definition with_bed (w : World) (bed : frame * pos_frame) : World := {|
  os_path_exists := os_path_exists w;
  w_phenotype_bed := bed;
  w_covariates := w_covariates w;
  w_paired_covariate := w_paired_covariate w;
  w_interaction_line2_fields := w_interaction_line2_fields w;
  w_interaction_headerless := w_interaction_headerless w;
  w_interaction_header := w_interaction_header w;
  w_phenotype_groups := w_phenotype_groups w;
  w_genotypes := w_genotypes w;
  w_plink_chrs := w_plink_chrs w;
  w_plink_region := w_plink_region w;
  w_plink_bim := w_plink_bim w;
  w_has_rpy2 := w_has_rpy2 w;
  w_cis_output_has_qval := w_cis_output_has_qval w;
  w_cis_output_phenotypes := w_cis_output_phenotypes w;
  w_entropy := w_entropy w
|}.

Definition cohort : World := world covariates [] (Some variants).

(** The inputs of the cohort once loaded, with or without covariates. *)
Definition loaded (cov : option frame) : inputs := {|
  phenotype_df := phenotypes; phenotype_pos_df := positions;
  pos_dict := pos_rows positions; covariates_df := cov;
  paired_covariate_df := None; interaction_df := None
|}.

(** Decides the membership of an event in a computed trace. *)
Ltac in_trace :=
  apply list_elem_of_In; vm_compute; repeat first [ left; reflexivity | right ].

Lemma cis_independent_requires_cis_output_witness :
  result (main (parse_args (flags (command_line CisIndependent None None None None)
                              None (Some "cis.txt") false false)) cohort)
  = Raise (ValueError "Output from 'cis' mode must be provided.")
  ∧ never is_read
      (trace (main (parse_args (flags (command_line CisIndependent None None None None)
                                  None (Some "cis.txt") false false)) cohort))
  ∧ never is_mapping
      (trace (main (parse_args (flags (command_line CisIndependent None None None None)
                                  None (Some "cis.txt") false false)) cohort))
  ∧ never is_write
      (trace (main (parse_args (flags (command_line CisIndependent None None None None)
                                  None (Some "cis.txt") false false)) cohort)).
Proof.
  apply cis_independent_requires_cis_output; [reflexivity|]. intros p _. reflexivity.
Defined.

Lemma interaction_with_invnorm_unsupported_witness :
  main (parse_args (flags (command_line Trans (Some "cov.txt") (Some "inter.txt") None None)
                      None None true false)) cohort
  = ([], Raise (NotImplementedError "--invnorm is not supported when using --interaction")).
Proof.
  apply (interaction_with_invnorm_unsupported _ _ "inter.txt"); [reflexivity..|].
  right. reflexivity.
Defined.

(** A phenotype file whose positions are a start and an end. *)
Lemma phenotype_bed_needs_pos_column_witness :
  result (main (args Cis None None None None)
            (with_bed cohort
               (phenotypes,
                {| pos_columns := ["chr"; "start"; "end"];
                   pos_rows := pos_rows positions |})))
  = Raise (AssertionError
      "The BED file must define the TSS/cis-window center, with start+1 == end.").
Proof.
  destruct (phenotype_bed_needs_pos_column (args Cis None None None None)
              (with_bed cohort
                 (phenotypes,
                  {| pos_columns := ["chr"; "start"; "end"];
                     pos_rows := pos_rows positions |})) "start")
    as (_ & _ & _ & He).
  - reflexivity.
  - discriminate.
  - apply He. reflexivity.
Defined.

Lemma paired_covariate_requires_covariates_witness :
  result (main (parse_args (flags (command_line Cis None None None None)
                              (Some "paired.txt") None false false)) cohort)
  = Raise (AssertionError "Covariates matrix must be provided when using paired covariate")
  ∧ never is_read_csv
      (trace (main (parse_args (flags (command_line Cis None None None None)
                                  (Some "paired.txt") None false false)) cohort)).
Proof.
  destruct (paired_covariate_requires_covariates
              (parse_args (flags (command_line Cis None None None None)
                             (Some "paired.txt") None false false)) cohort "paired.txt")
    as (_ & Hn & _ & He); [reflexivity..|].
  split; [|exact Hn]. apply (He (phenotypes, positions)); reflexivity.
Defined.

Lemma interaction_requires_covariates_witness :
  result (main (args Trans None (Some "inter.txt") None None) cohort)
  = Raise AttributeError
  ∧ never is_computation (trace (main (args Trans None (Some "inter.txt") None None) cohort)).
Proof.
  destruct (interaction_requires_covariates
              (args Trans None (Some "inter.txt") None None) cohort "inter.txt")
    as (_ & Hn & He); [reflexivity..|].
  split; [|exact Hn]. apply (He (phenotypes, positions)); reflexivity.
Defined.

(** A mapping without the third phenotype. *)
Lemma missing_group_is_key_error_witness :
  result (main (args Cis None None (Some "groups.txt") None)
            (world covariates [("g1", "A"); ("g2", "B")] (Some variants)))
  = Raise (KeyError "g3").
Proof.
  destruct (missing_group_is_key_error
              (args Cis None None (Some "groups.txt") None)
              (world covariates [("g1", "A"); ("g2", "B")] (Some variants))
              "groups.txt" ["g1"; "g2"] "g3" [])
    as (_ & _ & He).
  - reflexivity.
  - reflexivity.
  - repeat constructor; apply list_elem_of_In; cbn; tauto.
  - intros Hin. apply list_elem_of_In in Hin. cbn in Hin. intuition discriminate.
  - apply (He (loaded None)); vm_compute; reflexivity.
Defined.

(** The scan of a trans run with covariates. *)
Definition scan_with_covariates : event :=
  Call (MapTrans
    (trans_scan (args Trans (Some "cov.txt") None None None) (loaded (Some covariates))
       0%float genotypes None)).


Lemma mapper_matches_mode_witness :
  arg_mode (args Trans None None None None) = Trans.
Proof.
  apply (mapper_matches_mode (args Trans None None None None) cohort
           (Call (FilterCis 5000000))).
  - in_trace.
  - reflexivity.
Defined.

Lemma command_line_reaches_mappers_witness :
  (∀ t, maf_threshold_of scan_with_covariates = Some t → t = 0%float)
  ∧ (∀ x, window_of scan_with_covariates = Some x → x = 1000000)
  ∧ (∀ n, permutations_of scan_with_covariates = Some n → n = 10000).
Proof.
  apply (command_line_reaches_mappers
           (command_line Trans (Some "cov.txt") None None None) cohort
           scan_with_covariates).
  in_trace.
Defined.


Lemma driver_failure_precedes_work_witness :
  never is_mapping (trace (main (args Cis None None None None) (world covariates [] None)))
  ∧ never is_write (trace (main (args Cis None None None None) (world covariates [] None))).
Proof.
  eapply driver_failure_precedes_work. vm_compute. reflexivity.
Defined.

Lemma cis_susie_requires_cis_output_witness :
  result (main (args CisSusie None None None None) cohort) = Raise AttributeError
  ∧ LoadGenotypes "geno" false ∈ trace (main (args CisSusie None None None None) cohort).
Proof.
  destruct (cis_susie_requires_cis_output (args CisSusie None None None None) cohort)
    as (_ & _ & _ & He); [reflexivity..|].
  apply (He (loaded None) None (Some (genotypes, Some variants))); vm_compute; reflexivity.
Defined.

(** The cohort has no [rpy2]: no q-values, and the table is written. *)
Lemma cis_qvalues_need_rpy2_witness :
  (∃ pre c,
     only is_prelude_event pre
     ∧ cc_beta_approx c = true
     ∧ trace (main (args Cis None None None None) cohort) =
         pre ++ [Call (MapCis c);
                 ToCsv "./out.cis_qtl.txt.gz" (CisTable (map_cis c 42) false)])
  ∧ ((∃ e, e ∈ trace (main (args Cis None None None None) cohort) ∧ is_qvalues e = true)
     ↔ false = true).
Proof.
  apply (cis_qvalues_need_rpy2 (args Cis None None None None) cohort); reflexivity.
Defined.

Lemma load_split_maps_each_chromosome_witness :
  result (main (parse_args (flags (command_line CisNominal None None None None)
                              None None false true)) cohort) = Ret ()
  ∧ PlinkReader "geno"
    ∈ trace (main (parse_args (flags (command_line CisNominal None None None None)
                                 None None false true)) cohort)
  ∧ nominal_chromosomes
      (trace (main (parse_args (flags (command_line CisNominal None None None None)
                                  None None false true)) cohort))
    = [Some "chr1"; Some "chr2"].
Proof.
  destruct (load_split_maps_each_chromosome
              (parse_args (flags (command_line CisNominal None None None None)
                             None None false true)) cohort)
    as (_ & _ & Hr); [reflexivity..|].
  apply (Hr (loaded None) None); [discriminate|vm_compute; reflexivity..].
Defined.

(** The call on chr2: the variants v2 and v3, the phenotypes g2 and g3. *)
Lemma load_split_calls_one_chromosome_witness :
  "chr2" ∈ ["chr1"; "chr2"]
  ∧ nc_genotype_df (chromosome_call
       (parse_args (flags (command_line CisNominal None None None None)
                      None None false true)) cohort (loaded None) 0%float "chr2")
    = genotypes
  ∧ (∀ variants' id v,
       nc_variant_df (chromosome_call
         (parse_args (flags (command_line CisNominal None None None None)
                        None None false true)) cohort (loaded None) 0%float "chr2")
       = Some variants' →
       variants' !! id = Some v → variants !! id = Some v ∧ v.1 = "chr2")
  ∧ (∀ id,
       id ∈ df_index (nc_phenotype_df (chromosome_call
         (parse_args (flags (command_line CisNominal None None None None)
                        None None false true)) cohort (loaded None) 0%float "chr2")) →
       ∃ pos, pos_rows positions !! id = Some ("chr2", pos))
  ∧ (∀ id v,
       pos_rows (nc_phenotype_pos_df (chromosome_call
         (parse_args (flags (command_line CisNominal None None None None)
                        None None false true)) cohort (loaded None) 0%float "chr2"))
       !! id = Some v → v.1 = "chr2").
Proof.
  apply (load_split_calls_one_chromosome
           (parse_args (flags (command_line CisNominal None None None None)
                          None None false true)) cohort).
  - reflexivity.
  - reflexivity.
  - in_trace.
  - reflexivity.
Defined.

Lemma significant_pairs_need_cis_output_witness :
  ∃ pre c,
    only is_prelude_event pre
    ∧ nc_chrom c = None
    ∧ nc_genotype_df c = genotypes
    ∧ trace (main (parse_args (flags (command_line CisNominal None None None None)
                                 None (Some "cis.txt") false false)) cohort) =
        pre ++ [Call (MapNominal c); ReadCsv "cis.txt";
                Call (GetSignificantPairs "cis.txt" 0.05%float);
                ToParquet "./out.cis_qtl.signif_pairs.parquet" (OtherTable "signif_pairs")].
Proof.
  apply (significant_pairs_need_cis_output
           (parse_args (flags (command_line CisNominal None None None None)
                          None (Some "cis.txt") false false)) cohort);
    reflexivity.
Defined.

Lemma trans_pairs_written_last_witness :
  ∃ before l,
    trace (main (args Trans None None None None) cohort) =
      before ++ [ToParquet "./out.trans_qtl_pairs.parquet" (PairsTable l)]
    ∧ Forall (λ e, pairs_written e = None) before.
Proof.
  apply (trans_pairs_written_last (args Trans None None None None) cohort); reflexivity.
Defined.

End Toy.
